(** * Kiwi: the conversational orchestrator of [ChatbotPage.tsx]

    A shallow embedding of the chat page component
    ([src/frontend/src/pages/ChatbotPage.tsx]): the transcript with its
    deduplicating append, the asynchronous [sendMessage] with its
    [loadingRef] gate, and the routing of voice transcriptions.

    Conventions of the embedding.
    - A JavaScript string is a [string]; every character stands for one
      code unit below 256.
    - React state cells ([useState]) and refs ([useRef]) are fields of one
      record [State]; a state setter is a function on [State]; updater
      functions given to [setMessages] are applied in program order.
    - An [async] function is cut at its [await]: it either returns at once
      or hands back the arguments of the awaited call, the state it leaves
      behind and the continuation that runs when the call settles.
    - Handlers run to completion; other handlers may run only between the
      two halves of an [async] function.
    - A render is committed between handlers, with the cells as they then
      are; the effect of lines 90-92 runs later, with the [loading] of the
      render that scheduled it. *)

From Stdlib Require Import List String Ascii Bool Arith Lia NArith.
From Stdlib Require Import DecimalString.
Import ListNotations.
Open Scope string_scope.
Open Scope list_scope.

Set Implicit Arguments.

(** ** Strings: [String.prototype.trim] *)

Module JsString.

(** WhiteSpace and LineTerminator code units below 256:
    TAB, LF, VT, FF, CR, SP and NBSP. *)
Definition isWhiteSpace (c : ascii) : bool :=
  let n := nat_of_ascii c in
  ((9 <=? n)%nat && (n <=? 13)%nat) || (n =? 32)%nat || (n =? 160)%nat.

Fixpoint trimStart (s : string) : string :=
  match s with
  | EmptyString => EmptyString
  | String c r => if isWhiteSpace c then trimStart r else s
  end.

Fixpoint trimEnd (s : string) : string :=
  match s with
  | EmptyString => EmptyString
  | String c r =>
      match trimEnd r with
      | EmptyString => if isWhiteSpace c then EmptyString else String c EmptyString
      | t => String c t
      end
  end.

Definition trim (s : string) : string := trimEnd (trimStart s).

(** Truthiness of a string: only the empty string is falsy. *)
Definition truthy (s : string) : bool :=
  match s with EmptyString => false | String _ _ => true end.

Fixpoint allWhiteSpace (s : string) : bool :=
  match s with
  | EmptyString => true
  | String c r => isWhiteSpace c && allWhiteSpace r
  end.

Definition firstChar (s : string) : option ascii :=
  match s with EmptyString => None | String c _ => Some c end.

Fixpoint lastChar (s : string) : option ascii :=
  match s with
  | EmptyString => None
  | String c EmptyString => Some c
  | String _ r => lastChar r
  end.

Definition notWhite (o : option ascii) : Prop :=
  forall c, o = Some c -> isWhiteSpace c = false.

End JsString.
Import JsString.

(** ** Data model *)

Inductive Role : Type := user | assistant.

Definition Role_eqb (a b : Role) : bool :=
  match a, b with
  | user, user | assistant, assistant => true
  | _, _ => false
  end.

(** [ChatSource] is imported from [../types], which is not among the
    sources; the page reads [source.label] and [source.url || '']. *)
Record ChatSource : Type := mkSource {
  label : string;
  url : option string
}.

Record Message : Type := mkMessage {
  role : Role;
  content : string;
  sources : option (list ChatSource)
}.

(** The value [chatbotApi.sendMessage] resolves with.  Its declaration is
    not among the sources; the page reads [response.response] and
    [response.sources], and the latter is kept optional as
    [Message.sources] is. *)
Record ChatResponse : Type := mkResponse {
  response : string;
  response_sources : option (list ChatSource)
}.

(** The cells of the component: [useState] for [messages], [input],
    [loading], [sessionId] and [useRef] for [loadingRef]. *)
Record State : Type := mkState {
  messages : list Message;
  input : string;
  loading : bool;
  sessionId : string;
  loadingRef : bool
}.

Definition greeting : string :=
  "Bonjour ! Je suis votre assistant d'assurance Kiwi. Je peux expliquer les termes d'assurance, repondre aux questions sur le processus de sinistre, et vous guider dans votre contrat. Que souhaitez-vous savoir ?".

Definition failureContent : string :=
  "Desole, une erreur est survenue. Veuillez reessayer.".

(** The state at mount; [now] is the value of [Date.now()]. *)
Definition init (now : N) : State :=
  {| messages := [ mkMessage assistant greeting None ];
     input := "";
     loading := false;
     sessionId := ("session-" ++ NilEmpty.string_of_uint (N.to_uint now))%string;
     loadingRef := false |}.

(** Setters. *)
Definition setMessages (f : list Message -> list Message) (s : State) : State :=
  {| messages := f (messages s); input := input s; loading := loading s;
     sessionId := sessionId s; loadingRef := loadingRef s |}.

Definition setInput (v : string) (s : State) : State :=
  {| messages := messages s; input := v; loading := loading s;
     sessionId := sessionId s; loadingRef := loadingRef s |}.

Definition setLoading (v : bool) (s : State) : State :=
  {| messages := messages s; input := input s; loading := v;
     sessionId := sessionId s; loadingRef := loadingRef s |}.

Definition setLoadingRef (v : bool) (s : State) : State :=
  {| messages := messages s; input := input s; loading := loading s;
     sessionId := sessionId s; loadingRef := v |}.

(** ** The transcript: [appendMessage] *)

(** [prev[prev.length - 1]]: [undefined] on the empty array. *)
Definition lastMessage (prev : list Message) : option Message :=
  match prev with
  | [] => None
  | _ => nth_error prev (List.length prev - 1)
  end.

(** [last && last.role === role && last.content === content] *)
Definition sameAsLast (prev : list Message) (r : Role) (c : string) : bool :=
  match lastMessage prev with
  | None => false
  | Some m => Role_eqb (role m) r && String.eqb (content m) c
  end.

(** The updater handed to [setMessages] by [appendMessage]. *)
Definition appendUpdater (r : Role) (c : string) (prev : list Message) : list Message :=
  if sameAsLast prev r c then prev else prev ++ [ mkMessage r c None ].

Definition appendMessage (r : Role) (c : string) (s : State) : State :=
  setMessages (appendUpdater r c) s.

(** ** Statement blocks with abrupt completion *)

(** What a rejected promise or a [throw] carries. *)
Inductive Thrown : Type := thrown (what : string).

Inductive Completion : Type :=
| Normal
| Throw (e : Thrown).

(** A block of statements: it transforms the state and completes normally
    or abruptly. *)
Definition Block : Type := State -> State * Completion.

Definition exec (f : State -> State) : Block := fun s => (f s, Normal).

Definition throw (e : Thrown) : Block := fun s => (s, Throw e).

Definition seq (a b : Block) : Block :=
  fun s =>
    match a s with
    | (s1, Normal) => b s1
    | (s1, Throw e) => (s1, Throw e)
    end.

Notation "a ;; b" := (seq a b) (at level 61, right associativity).

(** [try { body } catch (err) { handler } finally { fin }]: the handler
    runs on an abrupt completion of the body, [fin] runs in every case and
    an abrupt completion of [fin] wins. *)
Definition tryCatchFinally (body : Block) (handler : Thrown -> Block) (fin : Block) : Block :=
  fun s =>
    let '(s1, c1) :=
      match body s with
      | (s0, Normal) => (s0, Normal)
      | (s0, Throw e) => handler e s0
      end in
    match fin s1 with
    | (s2, Normal) => (s2, c1)
    | (s2, Throw e) => (s2, Throw e)
    end.

(** How the promise of [chatbotApi.sendMessage] settles. *)
Inductive Settled : Type :=
| Fulfilled (r : ChatResponse)
| Rejected (e : Thrown).

(** An [async] function with at most one [await]: [Done c s] when it ends
    without awaiting, [Await message session s k] when it calls the text
    collaborator with [(message, session)], leaves state [s] and resumes
    with [k] once the call has settled. *)
Inductive Async : Type :=
| Done (c : Completion) (s : State)
| Await (message session : string) (s : State) (k : Settled -> Block).

(** ** [sendMessage] *)

(** [await] inside the [try]: the value of a fulfilled promise, a throw of
    the reason of a rejected one; then the [setMessages] of line 49. *)
Definition awaited (r : Settled) : Block :=
  match r with
  | Fulfilled resp =>
      exec (setMessages (fun prev =>
              prev ++ [ mkMessage assistant (response resp) (response_sources resp) ]))
  | Rejected e => throw e
  end.

(** The part of [sendMessage] that runs when the collaborator's promise
    has settled: the end of the [try], the [catch] ([console.error] has no
    effect on the component) and the [finally]. *)
Definition resume (r : Settled) : Block :=
  tryCatchFinally
    (awaited r)
    (fun _err => exec (appendMessage assistant failureContent))
    (exec (setLoadingRef false) ;; exec (setLoading false)).

Definition sendMessage (messageText : string) (s : State) : Async :=
  let trimmed := trim messageText in
  if negb (truthy trimmed) || loadingRef s then Done Normal s
  else
    let s1 := setInput "" s in
    let s2 := appendMessage user trimmed s1 in
    let s3 := setLoadingRef true s2 in
    let s4 := setLoading true s3 in
    Await trimmed (sessionId s4) s4 resume.

(** ** Handlers of the page *)

(** The [onTranscription] callback given to [useVoiceChat]:
    [void sendMessage(text)] for the user, [appendMessage] otherwise. *)
Definition onTranscription (r : Role) (text : string) (s : State) : Async :=
  if Role_eqb r user then sendMessage text s
  else Done Normal (appendMessage r text s).

Definition handleSend (s : State) : Async := sendMessage (input s) s.

(** [handleKeyPress]: Enter without Shift sends. *)
Definition handleKeyPress (key : string) (shiftKey : bool) (s : State) : Async :=
  if String.eqb key "Enter" && negb shiftKey then handleSend s else Done Normal s.

(** The effect of lines 90-92, [loadingRef.current = loading]: [captured]
    is the [loading] of the render that scheduled the effect, which runs
    after that render has been committed. *)
Definition loadingEffect (captured : bool) (s : State) : State :=
  setLoadingRef captured s.

(** ** The component between handlers *)

(** The cells, the continuations waiting for a collaborator call to
    settle, the calls made so far as [(message, sessionId)], the
    completions of the handler runs that have ended, the [loading] of the
    last committed render and the effect that render has scheduled and
    that has not run yet, with the [loading] it captured. *)
Record Sys : Type := mkSys {
  ui : State;
  pending : list (Settled -> Block);
  requests : list (string * string);
  outcomes : list Completion;
  rendered : bool;
  effect : option bool
}.

Inductive Event : Type :=
| Change (v : string)
| ClickSend
| KeyPress (key : string) (shiftKey : bool)
| Transcription (r : Role) (text : string)
| Settle (i : nat) (r : Settled)
| Render
| LoadingEffect.

(** The component when its first render has been committed: the cells
    have their initial values, and the effect scheduled by that render,
    which captured [loading = false], has not run yet. *)
Definition boot (now : N) : Sys :=
  {| ui := init now; pending := []; requests := []; outcomes := [];
     rendered := false; effect := Some false |}.

Definition launch (a : Async) (y : Sys) : Sys :=
  match a with
  | Done c s =>
      {| ui := s; pending := pending y; requests := requests y;
         outcomes := outcomes y ++ [c];
         rendered := rendered y; effect := effect y |}
  | Await m sid s k =>
      {| ui := s; pending := pending y ++ [k];
         requests := requests y ++ [(m, sid)]; outcomes := outcomes y;
         rendered := rendered y; effect := effect y |}
  end.

Fixpoint dropNth {A : Type} (i : nat) (l : list A) : list A :=
  match l, i with
  | [], _ => []
  | _ :: t, O => t
  | h :: t, S j => h :: dropNth j t
  end.

Definition settle (i : nat) (r : Settled) (y : Sys) : Sys :=
  match nth_error (pending y) i with
  | None => y
  | Some k =>
      let '(s, c) := k r (ui y) in
      {| ui := s; pending := dropNth i (pending y); requests := requests y;
         outcomes := outcomes y ++ [c];
         rendered := rendered y; effect := effect y |}
  end.

Definition withUi (f : State -> State) (y : Sys) : Sys :=
  {| ui := f (ui y); pending := pending y; requests := requests y;
     outcomes := outcomes y; rendered := rendered y; effect := effect y |}.

(** The scheduled effect runs, if there is one. *)
Definition runEffect (y : Sys) : Sys :=
  match effect y with
  | None => y
  | Some captured =>
      {| ui := loadingEffect captured (ui y); pending := pending y;
         requests := requests y; outcomes := outcomes y;
         rendered := rendered y; effect := None |}
  end.

(** A render is committed with the cells as they are; the dependency
    list [[loading]] schedules the effect when [loading] is not what the
    previous render had. *)
Definition commit (y : Sys) : Sys :=
  {| ui := ui y; pending := pending y; requests := requests y;
     outcomes := outcomes y;
     rendered := loading (ui y);
     effect := if Bool.eqb (loading (ui y)) (rendered y)
               then effect y else Some (loading (ui y)) |}.

(** An effect still waiting runs before the next render. *)
Definition render (y : Sys) : Sys := commit (runEffect y).

Definition step (y : Sys) (e : Event) : Sys :=
  match e with
  | Change v => withUi (setInput v) y
  | ClickSend => launch (handleSend (ui y)) y
  | KeyPress key shiftKey => launch (handleKeyPress key shiftKey (ui y)) y
  | Transcription r text => launch (onTranscription r text (ui y)) y
  | Settle i r => settle i r y
  | Render => render y
  | LoadingEffect => runEffect y
  end.

Definition run (evs : list Event) (y : Sys) : Sys := fold_left step evs y.

Definition reachable (y : Sys) : Prop :=
  exists now evs, y = run evs (boot now).

(** A send: an event that enters [sendMessage]. *)
Definition isSend (e : Event) : bool :=
  match e with
  | ClickSend => true
  | KeyPress key shiftKey => String.eqb key "Enter" && negb shiftKey
  | Transcription r _ => Role_eqb r user
  | _ => false
  end.

(** The text a send hands to [sendMessage]. *)
Definition sendText (e : Event) (s : State) : string :=
  match e with
  | Transcription _ text => text
  | _ => input s
  end.

(** The dispatches that have passed the check of the gate and not yet
    run their [finally]. *)
Definition inFlight (y : Sys) : nat := List.length (pending y).

(** The effect that is waiting, if any, would write the value the gate
    already has. *)
Definition effectInSync (y : Sys) : bool :=
  match effect y with
  | Some captured => Bool.eqb captured (loadingRef (ui y))
  | None => true
  end.

(** Along the run, every effect that runs writes the value the gate
    already has. *)
Fixpoint effectsInSync (evs : list Event) (y : Sys) : bool :=
  match evs with
  | [] => true
  | e :: rest =>
      match e with
      | Render | LoadingEffect => effectInSync y
      | _ => true
      end && effectsInSync rest (step y e)
  end.

(** A run in which the effect writes a stale value.  The effect of the
    first render runs; the dispatch of [a] is made and rendered, its call
    settles, and the render after that schedules the effect with
    [loading = false]; before the effect runs a voice transcription [b]
    of the user is dispatched and takes the gate; then the effect runs
    and writes [false]. *)
Definition staleEffectRun (a b : string) (r : Settled) : list Event :=
  [ LoadingEffect; Transcription user a; Render; LoadingEffect; Settle 0 r;
    Render; Transcription user b; LoadingEffect ].

(** ** States of the two halves of [sendMessage] *)

(** The state an accepted [sendMessage] leaves at its [await]. *)
Definition dispatched (text : string) (s : State) : State :=
  {| messages := appendUpdater user (trim text) (messages s);
     input := "";
     loading := true;
     sessionId := sessionId s;
     loadingRef := true |}.

(** The state [resume] leaves, given the turns it ends with. *)
Definition released (turns : list Message) (s : State) : State :=
  {| messages := turns;
     input := input s;
     loading := false;
     sessionId := sessionId s;
     loadingRef := false |}.

(** ** Invariants of the reachable states *)

Definition endsWithAssistant (l : list Message) : Prop :=
  exists m, lastMessage l = Some m /\ role m = assistant.

Record Inv (sid : string) (y : Sys) : Prop := mkInv {
  inv_pending : Forall (fun k => k = resume) (pending y);
  inv_session : sessionId (ui y) = sid;
  inv_requests : Forall (fun rq => snd rq = sid) (requests y);
  inv_outcomes : Forall (fun c => c = Normal) (outcomes y)
}.

(** The gate is true exactly while one dispatch is in flight. *)
Definition gateHeldByPending (y : Sys) : Prop :=
  pending y = if loadingRef (ui y) then [resume] else [].

(** ** The voice session controller *)

Module VoiceSession.

(** Modelled from the spec: the hook [useVoiceChat]
    ([../hooks/useVoiceChat]) is not among the sources; the page only
    reads [status], [error], [start] and [stop] from it.  Section 4.3:
    four states, [error] carrying its message. *)
Inductive VoiceStatus : Type :=
| idle
| connecting
| ready
| error (message : string).

(** Modelled from the spec: what reaches the controller, the two entry
    points [start()] and [stop()] and the signals of the voice
    collaborator (section 6): the channel is confirmed, the channel
    fails with a message, an utterance is finalized. *)
Inductive Signal : Type :=
| Start
| Stop
| Confirmed
| Failed (message : string)
| Utterance (r : Role) (text : string).

(** Modelled from the spec: what the controller asks of its
    surroundings, opening and tearing down the channel of the voice
    collaborator and handing a finalized utterance to [onTranscription]. *)
Inductive Command : Type :=
| OpenChannel
| TearDown
| Deliver (r : Role) (text : string).

(** Modelled from the spec: section 4.3.  [start()] is valid only from
    [idle] or [error] and goes to [connecting]; [stop()] is valid from
    [connecting] or [ready], tears down the channel and goes to [idle];
    a confirmation takes [connecting] to [ready]; a failure while
    [connecting] or [ready] forces [error] with the message; utterances
    are received while [ready]; everything else is ignored. *)
Definition react (st : VoiceStatus) (sg : Signal) : VoiceStatus * list Command :=
  match sg, st with
  | Start, idle | Start, error _ => (connecting, [OpenChannel])
  | Stop, connecting | Stop, ready => (idle, [TearDown])
  | Confirmed, connecting => (ready, [])
  | Failed m, connecting | Failed m, ready => (error m, [])
  | Utterance r text, ready => (ready, [Deliver r text])
  | _, _ => (st, [])
  end.

Definition start (st : VoiceStatus) : VoiceStatus * list Command := react st Start.
Definition stop (st : VoiceStatus) : VoiceStatus * list Command := react st Stop.

Definition initial : VoiceStatus := idle.

Definition statusAfter (sgs : list Signal) (st : VoiceStatus) : VoiceStatus :=
  fold_left (fun a sg => fst (react a sg)) sgs st.

(** The six edges the specification lists in section 8. *)
Definition listedEdge (a b : VoiceStatus) : bool :=
  match a, b with
  | idle, connecting => true
  | connecting, ready => true
  | connecting, error _ => true
  | ready, idle => true
  | ready, error _ => true
  | error _, connecting => true
  | _, _ => false
  end.

(** The edges of section 4.3: the listed ones and [connecting -> idle],
    the [stop()] of a connection that is still being set up. *)
Definition edge (a b : VoiceStatus) : bool :=
  listedEdge a b || match a, b with connecting, idle => true | _, _ => false end.

Definition sameStatus (a b : VoiceStatus) : bool :=
  match a, b with
  | idle, idle | connecting, connecting | ready, ready => true
  | error m, error m' => String.eqb m m'
  | _, _ => false
  end.

End VoiceSession.

(** ** What the page renders *)

(** [{messages.length === 1 && ...}]: the suggested questions. *)
Definition showSuggestions (s : State) : bool :=
  (List.length (messages s) =? 1)%nat.

(** Each suggested question is a button with [onClick={() => setInput(question)}]. *)
Definition suggestedQuestions : list string :=
  [ "Qu'est-ce qu'une franchise ?";
    "Combien de temps dure le traitement d'un sinistre ?";
    "Quels documents dois-je fournir ?";
    "Que signifie 'copay' ?" ].

(** [message.sources && message.sources.length > 0] *)
Definition showSources (m : Message) : bool :=
  match sources m with
  | Some (_ :: _) => true
  | _ => false
  end.

(** What a source is rendered as: an [<a href=url>] or an inert [<span>]. *)
Inductive Chip : Type :=
| LinkChip (href : string) (text : string)
| TextChip (text : string).

(** The body of [message.sources.map]: [const url = source.url || ''],
    then a link when [url] is truthy and a span otherwise. *)
Definition renderSource (source : ChatSource) : Chip :=
  let url :=
    match url source with
    | Some u => if truthy u then u else ""
    | None => ""
    end in
  if truthy url then LinkChip url (label source) else TextChip (label source).

Definition renderSources (m : Message) : list Chip :=
  if showSources m
  then match sources m with
       | Some l => map renderSource l
       | None => []
       end
  else [].

(** The voice indicators, on the [status] string of the hook.
    [voiceActive = voiceStatus === 'ready' || voiceStatus === 'connecting'] *)
Definition voiceActive (voiceStatus : string) : bool :=
  String.eqb voiceStatus "ready" || String.eqb voiceStatus "connecting".

Definition voiceLabel (voiceStatus : string) : string :=
  if String.eqb voiceStatus "ready" then "Ecoute"
  else if String.eqb voiceStatus "connecting" then "Connexion"
  else "Desactive".

(** The colour class of the status dot. *)
Definition voiceDot (voiceStatus : string) : string :=
  if String.eqb voiceStatus "ready" then "bg-emerald-500"
  else if String.eqb voiceStatus "connecting" then "bg-amber-500"
  else "bg-gray-300".

(** [onClick={voiceActive ? stopVoice : startVoice}] *)
Inductive MicAction : Type := StopVoice | StartVoice.

Definition micClick (voiceStatus : string) : MicAction :=
  if voiceActive voiceStatus then StopVoice else StartVoice.

Definition micAriaLabel (voiceStatus : string) : string :=
  if voiceActive voiceStatus then "Arreter le micro" else "Demarrer le micro".

(** ** Reading the transcript *)

Definition isUserTurn (m : Message) : bool := Role_eqb (role m) user.

(** The contents of the user turns, in order. *)
Definition userContents (l : list Message) : list string :=
  map content (filter isUserTurn l).

(** How the transcript relates to the calls made: the greeting is the
    first turn, the texts of the user turns are the messages of the
    calls, there are no more user turns than calls, user turns have no
    sources, and nothing has been dispatched while the transcript is the
    greeting alone. *)
Record Ledger (y : Sys) : Prop := mkLedger {
  led_first : exists rest,
      messages (ui y) = mkMessage assistant greeting None :: rest;
  led_requests : forall text,
      In text (userContents (messages (ui y))) <-> In text (map fst (requests y));
  led_sources : Forall (fun m => isUserTurn m = true -> sources m = None)
                       (messages (ui y));
  led_count : List.length (userContents (messages (ui y)))
              <= List.length (requests y);
  led_quiet : List.length (messages (ui y)) = 1 ->
              requests y = [] /\ pending y = []
}.

(** * Properties *)

(** ** Trimming *)

Module JsStringFacts.

Lemma trimStart_split (s : string) :
  exists pre, s = (pre ++ trimStart s)%string /\ allWhiteSpace pre = true.
Proof.
  induction s as [|c r IH]; simpl.
  - exists EmptyString. split; reflexivity.
  - destruct (isWhiteSpace c) eqn:Hc.
    + destruct IH as [pre [Heq Hw]].
      exists (String c pre). simpl. rewrite Hc, Hw. split; [congruence | reflexivity].
    + exists EmptyString. split; reflexivity.
Qed.

Lemma trimStart_first (s : string) : notWhite (firstChar (trimStart s)).
Proof.
  induction s as [|c r IH]; simpl.
  - intros x Hx. discriminate.
  - destruct (isWhiteSpace c) eqn:Hc; [exact IH|].
    intros x Hx. simpl in Hx. congruence.
Qed.

Lemma trimEnd_split (s : string) :
  exists post, s = (trimEnd s ++ post)%string /\ allWhiteSpace post = true.
Proof.
  induction s as [|c r IH]; simpl.
  - exists EmptyString. split; reflexivity.
  - destruct IH as [post [Heq Hw]].
    destruct (trimEnd r) as [|d t] eqn:Ht.
    + simpl in Heq. subst post.
      destruct (isWhiteSpace c) eqn:Hc.
      * exists (String c r). simpl. rewrite Hc, Hw. split; reflexivity.
      * exists r. split; [reflexivity | exact Hw].
    + exists post. split; [|exact Hw]. simpl. simpl in Heq. congruence.
Qed.

Lemma trimEnd_last (s : string) : notWhite (lastChar (trimEnd s)).
Proof.
  induction s as [|c r IH]; simpl.
  - intros x Hx. discriminate.
  - destruct (trimEnd r) as [|d t] eqn:Ht.
    + destruct (isWhiteSpace c) eqn:Hc; intros x Hx; simpl in Hx; congruence.
    + exact IH.
Qed.

(** [trimEnd] keeps a first character that is not white space. *)
Lemma trimEnd_first (s : string) :
  notWhite (firstChar s) -> firstChar (trimEnd s) = firstChar s.
Proof.
  destruct s as [|c r]; simpl; [reflexivity|].
  intros Hn. specialize (Hn c eq_refl).
  destruct (trimEnd r); [rewrite Hn|]; reflexivity.
Qed.

Lemma trim_first (s : string) : notWhite (firstChar (trim s)).
Proof.
  unfold trim. rewrite trimEnd_first; apply trimStart_first.
Qed.

Lemma trim_last (s : string) : notWhite (lastChar (trim s)).
Proof. apply trimEnd_last. Qed.

Lemma append_assoc (a b c : string) :
  ((a ++ b) ++ c = a ++ (b ++ c))%string.
Proof. induction a as [|x a IH]; simpl; [reflexivity | now rewrite IH]. Qed.

(** The input is its trim between two runs of white space. *)
Lemma trim_split (s : string) :
  exists pre post,
    s = (pre ++ trim s ++ post)%string
    /\ allWhiteSpace pre = true /\ allWhiteSpace post = true.
Proof.
  destruct (trimStart_split s) as [pre [Hs Hpre]].
  destruct (trimEnd_split (trimStart s)) as [post [Ht Hpost]].
  exists pre, post. unfold trim. rewrite <- Ht. auto.
Qed.

Lemma truthy_true (s : string) : truthy s = true <-> s <> EmptyString.
Proof. destruct s; simpl; split; congruence. Qed.

Lemma truthy_false (s : string) : truthy s = false <-> s = EmptyString.
Proof. destruct s; simpl; split; congruence. Qed.

(** Trimming an input that is all white space leaves nothing. *)
Lemma trim_allWhiteSpace (s : string) :
  allWhiteSpace s = true -> trim s = EmptyString.
Proof.
  unfold trim. induction s as [|c r IH]; simpl; [reflexivity|].
  intros H. apply andb_true_iff in H as [Hc Hr]. rewrite Hc. auto.
Qed.

End JsStringFacts.
Import JsStringFacts.

(** ** The last turn and the deduplicating updater *)

Lemma Role_eqb_eq (a b : Role) : Role_eqb a b = true <-> a = b.
Proof. destruct a, b; simpl; split; congruence. Qed.

Lemma lastMessage_snoc (l : list Message) (m : Message) :
  lastMessage (l ++ [m]) = Some m.
Proof.
  unfold lastMessage. destruct (l ++ [m]) eqn:E.
  - destruct l; discriminate.
  - rewrite <- E. rewrite length_app. simpl.
    replace (List.length l + 1 - 1) with (List.length l) by lia.
    rewrite nth_error_app2 by lia. now rewrite Nat.sub_diag.
Qed.

Lemma sameAsLast_iff (prev : list Message) (r : Role) (c : string) :
  sameAsLast prev r c = true <->
  exists m, lastMessage prev = Some m /\ role m = r /\ content m = c.
Proof.
  unfold sameAsLast. destruct (lastMessage prev) as [m|].
  - rewrite andb_true_iff, Role_eqb_eq, String.eqb_eq. split.
    + intros [H1 H2]. exists m. auto.
    + intros [m' [Hm [H1 H2]]]. inversion Hm. subst. auto.
  - split; [discriminate | intros [m [H _]]; discriminate].
Qed.

Lemma sameAsLast_snoc (l : list Message) (m : Message) (r : Role) (c : string) :
  sameAsLast (l ++ [m]) r c = Role_eqb (role m) r && String.eqb (content m) c.
Proof. unfold sameAsLast. now rewrite lastMessage_snoc. Qed.

Lemma snoc_neq (A : Type) (l : list A) (x : A) : l ++ [x] <> l.
Proof.
  intros H. apply (f_equal (@List.length A)) in H.
  rewrite length_app in H. simpl in H. lia.
Qed.

Lemma appendUpdater_fixed_iff (prev : list Message) (r : Role) (c : string) :
  appendUpdater r c prev = prev <-> sameAsLast prev r c = true.
Proof.
  unfold appendUpdater. destruct (sameAsLast prev r c); split; auto.
  - intros H. now apply snoc_neq in H.
  - discriminate.
Qed.

(** Only the last turn is looked at. *)
Lemma appendUpdater_snoc (h : list Message) (m : Message) (r : Role) (c : string) :
  appendUpdater r c (h ++ [m]) = h ++ appendUpdater r c [m].
Proof.
  unfold appendUpdater. rewrite sameAsLast_snoc.
  replace (sameAsLast [m] r c)
    with (Role_eqb (role m) r && String.eqb (content m) c) by reflexivity.
  destruct (Role_eqb (role m) r && String.eqb (content m) c); simpl.
  - reflexivity.
  - now rewrite <- app_assoc.
Qed.

(** After the updater the last turn has the given role and content. *)
Lemma appendUpdater_last (prev : list Message) (r : Role) (c : string) :
  exists m, lastMessage (appendUpdater r c prev) = Some m
            /\ role m = r /\ content m = c.
Proof.
  unfold appendUpdater. destruct (sameAsLast prev r c) eqn:E.
  - now apply sameAsLast_iff.
  - exists (mkMessage r c None). rewrite lastMessage_snoc. auto.
Qed.

Lemma appendUpdater_other (prev : list Message) (r : Role) (c : string) (m : Message) :
  lastMessage prev = Some m -> (role m, content m) <> (r, c) ->
  appendUpdater r c prev = prev ++ [ mkMessage r c None ].
Proof.
  intros Hl Hne. unfold appendUpdater.
  destruct (sameAsLast prev r c) eqn:E; [|reflexivity].
  apply sameAsLast_iff in E as [m' [Hm' [H1 H2]]].
  rewrite Hl in Hm'. inversion Hm'. subst. now elim Hne.
Qed.

Lemma appendUpdater_dropped (h : list Message) (m : Message) (r : Role) (c : string) :
  role m = r -> content m = c -> appendUpdater r c (h ++ [m]) = h ++ [m].
Proof.
  intros Hr Hc. apply appendUpdater_fixed_iff. rewrite sameAsLast_snoc.
  apply andb_true_iff. split; [now apply Role_eqb_eq | now apply String.eqb_eq].
Qed.

Lemma appendUpdater_added (h : list Message) (m : Message) (r : Role) (c : string) :
  ~ (role m = r /\ content m = c) ->
  appendUpdater r c (h ++ [m]) = h ++ [ m; mkMessage r c None ].
Proof.
  intros Hne. rewrite (@appendUpdater_other (h ++ [m]) r c m).
  - now rewrite <- app_assoc.
  - apply lastMessage_snoc.
  - intros H. inversion H. auto.
Qed.

(** C5: the deduplicating append is a no-op exactly when the turn just
    before has the same role and the same content: on a transcript that
    ends with [m], appending a turn with the role and content of [m]
    leaves every cell unchanged, and appending any other turn adds it
    after [m]; on the empty transcript the turn is added.  Only the last
    turn is compared, the history before it is not looked at; so
    appending A, then a different B, then A again adds B and A after the
    first A, and gives three turns from the empty transcript. *)
Theorem appendMessage_dedup_last_only
  (r : Role) (c : string) (s : State) (h : list Message) (m : Message)
  (Hlast : messages s = h ++ [m]) :
  (role m = r /\ content m = c -> appendMessage r c s = s)
  /\ (~ (role m = r /\ content m = c) ->
      messages (appendMessage r c s) = h ++ [ m; mkMessage r c None ])
  /\ (appendMessage r c s = s <-> role m = r /\ content m = c)
  /\ (messages (appendMessage r c s) = messages s <-> role m = r /\ content m = c)
  /\ messages (appendMessage r c s) = h ++ appendUpdater r c [m]
  /\ (forall s0, messages s0 = [] ->
        messages (appendMessage r c s0) = [ mkMessage r c None ])
  /\ (forall s0,
        appendMessage r c s0 = s0 <->
        exists x, lastMessage (messages s0) = Some x /\ role x = r /\ content x = c)
  /\ (forall s0,
        messages (appendMessage r c s0) = messages s0
        \/ messages (appendMessage r c s0) = messages s0 ++ [ mkMessage r c None ])
  /\ (forall s0 r' c', (r', c') <> (r, c) ->
        messages (appendMessage r c (appendMessage r' c' (appendMessage r c s0)))
        = messages (appendMessage r c s0)
            ++ [ mkMessage r' c' None; mkMessage r c None ]
        /\ appendUpdater r c (appendUpdater r' c' (appendUpdater r c []))
           = [ mkMessage r c None; mkMessage r' c' None; mkMessage r c None ]).
Proof.
  assert (Hstate : forall s0, appendUpdater r c (messages s0) = messages s0 ->
                              appendMessage r c s0 = s0).
  { intros s0 H. destruct s0. unfold appendMessage, setMessages. simpl in *.
    now rewrite H. }
  assert (Hdrop : role m = r /\ content m = c -> appendMessage r c s = s).
  { intros [Hr Hc]. apply Hstate. rewrite Hlast. now apply appendUpdater_dropped. }
  assert (Hadd : ~ (role m = r /\ content m = c) ->
                 messages (appendMessage r c s) = h ++ [ m; mkMessage r c None ]).
  { intros Hne. simpl. rewrite Hlast. now apply appendUpdater_added. }
  assert (Hiff : messages (appendMessage r c s) = messages s
                 <-> role m = r /\ content m = c).
  { split.
    - intros H. simpl in H. apply appendUpdater_fixed_iff in H.
      rewrite Hlast, sameAsLast_snoc in H. apply andb_true_iff in H as [H1 H2].
      split; [now apply Role_eqb_eq | now apply String.eqb_eq].
    - intros H. now rewrite (Hdrop H). }
  split; [exact Hdrop|]. split; [exact Hadd|].
  split; [|split; [exact Hiff|]].
  { split; [|exact Hdrop]. intros H. apply Hiff. now rewrite H. }
  split; [simpl; rewrite Hlast; apply appendUpdater_snoc|].
  split; [intros s0 H0; simpl; now rewrite H0|].
  split; [|split].
  - intros s0. split.
    + intros H. apply (f_equal messages) in H. simpl in H.
      apply sameAsLast_iff. now apply appendUpdater_fixed_iff.
    + intros H. apply Hstate. now apply appendUpdater_fixed_iff, sameAsLast_iff.
  - intros s0. simpl. unfold appendUpdater.
    destruct (sameAsLast (messages s0) r c); auto.
  - intros s0 r' c' Hne. split.
    + simpl.
      destruct (appendUpdater_last (messages s0) r c) as [x [Hl [Hr Hc]]].
      rewrite (@appendUpdater_other _ r' c' x Hl) by (rewrite Hr, Hc; congruence).
      rewrite (@appendUpdater_other _ r c (mkMessage r' c' None)).
      * now rewrite <- app_assoc.
      * apply lastMessage_snoc.
      * simpl. exact Hne.
    + unfold appendUpdater at 3. simpl.
      rewrite (@appendUpdater_other [mkMessage r c None] r' c' (mkMessage r c None))
        by (simpl; congruence).
      now rewrite (@appendUpdater_other _ r c (mkMessage r' c' None)).
Qed.

Lemma appendMessage_dedup_last_only_witness :
  appendMessage assistant "Bonjour"
    (mkState [ mkMessage assistant greeting None;
               mkMessage assistant "Bonjour"
                 (Some [ mkSource "Policy 4" None ]) ]
             "" false "session-0" false)
  = mkState [ mkMessage assistant greeting None;
              mkMessage assistant "Bonjour"
                (Some [ mkSource "Policy 4" None ]) ]
            "" false "session-0" false.
Proof.
  refine (proj1 (@appendMessage_dedup_last_only assistant "Bonjour"
            (mkState [ mkMessage assistant greeting None;
                       mkMessage assistant "Bonjour"
                         (Some [ mkSource "Policy 4" None ]) ]
                     "" false "session-0" false)
            [ mkMessage assistant greeting None ]
            (mkMessage assistant "Bonjour" (Some [ mkSource "Policy 4" None ]))
            _) _).
  - reflexivity.
  - split; reflexivity.
Defined.

(** ** The two halves of [sendMessage] *)

Lemma sendMessage_rejected (text : string) (s : State) :
  trim text = "" \/ loadingRef s = true -> sendMessage text s = Done Normal s.
Proof.
  intros H. unfold sendMessage.
  replace (negb (truthy (trim text)) || loadingRef s) with true; [reflexivity|].
  symmetry. apply orb_true_iff. destruct H as [H|H]; [left | now right].
  now rewrite H.
Qed.

Lemma sendMessage_accepted (text : string) (s : State) :
  trim text <> "" -> loadingRef s = false ->
  sendMessage text s = Await (trim text) (sessionId s) (dispatched text s) resume.
Proof.
  intros Hnb Hfree. unfold sendMessage.
  apply truthy_true in Hnb. rewrite Hnb, Hfree. reflexivity.
Qed.

Lemma resume_fulfilled (resp : ChatResponse) (s : State) :
  resume (Fulfilled resp) s =
  (released (messages s
             ++ [ mkMessage assistant (response resp) (response_sources resp) ]) s,
   Normal).
Proof. reflexivity. Qed.

Lemma resume_rejected (e : Thrown) (s : State) :
  resume (Rejected e) s =
  (released (appendUpdater assistant failureContent (messages s)) s, Normal).
Proof. reflexivity. Qed.

Lemma resume_normal (r : Settled) (s : State) : snd (resume r s) = Normal.
Proof. destruct r; reflexivity. Qed.

Lemma resume_releases (r : Settled) (s : State) :
  loadingRef (fst (resume r s)) = false /\ loading (fst (resume r s)) = false.
Proof. destruct r; split; reflexivity. Qed.

Lemma resume_session (r : Settled) (s : State) :
  sessionId (fst (resume r s)) = sessionId s.
Proof. destruct r; reflexivity. Qed.

(** [sendMessage] either returns at once, normally and without touching
    the state, or awaits after taking the gate. *)
Lemma sendMessage_cases (text : string) (s : State) :
  (sendMessage text s = Done Normal s
   /\ (trim text = "" \/ loadingRef s = true))
  \/ (sendMessage text s = Await (trim text) (sessionId s) (dispatched text s) resume
      /\ trim text <> "" /\ loadingRef s = false).
Proof.
  destruct (truthy (trim text)) eqn:Ht; destruct (loadingRef s) eqn:Hg.
  - left. split; [apply sendMessage_rejected|]; auto.
  - right. apply truthy_true in Ht. split; [apply sendMessage_accepted|]; auto.
  - left. apply truthy_false in Ht. split; [apply sendMessage_rejected|]; auto.
  - left. apply truthy_false in Ht. split; [apply sendMessage_rejected|]; auto.
Qed.

(** The user turn of an accepted dispatch is added unless the transcript
    already ends with a user turn of the same content. *)
Lemma dispatched_messages (text : string) (s : State) :
  sameAsLast (messages s) user (trim text) = false ->
  messages (dispatched text s)
  = messages s ++ [ mkMessage user (trim text) None ].
Proof. intros H. simpl. unfold appendUpdater. now rewrite H. Qed.

Lemma endsWithAssistant_not_user (l : list Message) (c : string) :
  endsWithAssistant l -> sameAsLast l user c = false.
Proof.
  intros [m [Hl Hr]]. unfold sameAsLast. rewrite Hl, Hr. reflexivity.
Qed.

(** ** The invariant holds in every reachable state *)

Lemma Forall_dropNth (A : Type) (P : A -> Prop) (i : nat) (l : list A) :
  Forall P l -> Forall P (dropNth i l).
Proof.
  intros F. revert i. induction F as [|x l Hx F IH]; intros i; simpl.
  - destruct i; constructor.
  - destruct i; [exact F | constructor; auto].
Qed.

Lemma Inv_boot (now : N) : Inv (sessionId (init now)) (boot now).
Proof. constructor; simpl; auto. Qed.

Lemma Inv_launch_send (sid text : string) (y : Sys) :
  Inv sid y -> Inv sid (launch (sendMessage text (ui y)) y).
Proof.
  intros I. destruct (sendMessage_cases text (ui y)) as [[E _]|[E [Hnb Hfree]]];
    rewrite E; destruct I; constructor; simpl; auto;
    apply Forall_app; split; auto.
Qed.

Lemma Inv_settle (sid : string) (i : nat) (r : Settled) (y : Sys) :
  Inv sid y -> Inv sid (settle i r y).
Proof.
  intros I. unfold settle. destruct (nth_error (pending y) i) as [k|] eqn:Hk; [|exact I].
  assert (Hres : k = resume).
  { pose proof (inv_pending I) as F. rewrite Forall_forall in F.
    apply F. eapply nth_error_In. exact Hk. }
  subst k. destruct (resume r (ui y)) as [s c] eqn:Er.
  assert (Hc : c = Normal) by (now rewrite <- (resume_normal r (ui y)), Er).
  assert (Hs : sessionId s = sessionId (ui y))
    by (now rewrite <- (resume_session r (ui y)), Er).
  destruct I. constructor; simpl; auto.
  - now apply Forall_dropNth.
  - congruence.
  - apply Forall_app. split; auto.
Qed.

Lemma Inv_runEffect (sid : string) (y : Sys) : Inv sid y -> Inv sid (runEffect y).
Proof.
  intros I. unfold runEffect. destruct (effect y); [|exact I].
  destruct I; constructor; simpl; auto.
Qed.

Lemma Inv_step (sid : string) (y : Sys) (e : Event) :
  Inv sid y -> Inv sid (step y e).
Proof.
  intros I. destruct e as [v| |key shiftKey|r text|i r| |]; simpl.
  - destruct I; constructor; simpl; auto.
  - now apply Inv_launch_send.
  - unfold handleKeyPress. destruct (String.eqb key "Enter" && negb shiftKey).
    + now apply Inv_launch_send.
    + destruct I; constructor; simpl; auto. apply Forall_app. split; auto.
  - unfold onTranscription. destruct r; simpl.
    + now apply Inv_launch_send.
    + destruct I; constructor; simpl; auto. apply Forall_app. split; auto.
  - now apply Inv_settle.
  - apply Inv_runEffect in I. destruct I; constructor; simpl; auto.
  - now apply Inv_runEffect.
Qed.

Lemma Inv_run (sid : string) (evs : list Event) (y : Sys) :
  Inv sid y -> Inv sid (run evs y).
Proof.
  revert y. induction evs as [|e evs IH]; simpl; intros y I; [exact I|].
  apply IH. now apply Inv_step.
Qed.

Lemma reachable_Inv (y : Sys) : reachable y -> exists sid, Inv sid y.
Proof.
  intros [now [evs ->]]. exists (sessionId (init now)).
  apply Inv_run, Inv_boot.
Qed.

Lemma reachable_step (y : Sys) (e : Event) : reachable y -> reachable (step y e).
Proof.
  intros [now [evs ->]]. exists now, (evs ++ [e]).
  unfold run. now rewrite fold_left_app.
Qed.

Lemma reachable_run (y : Sys) (evs : list Event) : reachable y -> reachable (run evs y).
Proof.
  intros [now [evs0 ->]]. exists now, (evs0 ++ evs).
  unfold run. now rewrite fold_left_app.
Qed.

Lemma reachable_boot (now : N) : reachable (boot now).
Proof. exists now, []. reflexivity. Qed.

Lemma run_app (evs more : list Event) (y : Sys) :
  run (evs ++ more) y = run more (run evs y).
Proof. unfold run. apply fold_left_app. Qed.

(** Every continuation that waits is the second half of [sendMessage]. *)
Lemma reachable_pending (y : Sys) (i : nat) (k : Settled -> Block) :
  reachable y -> nth_error (pending y) i = Some k -> k = resume.
Proof.
  intros Hr Hk. destruct (reachable_Inv Hr) as [sid I].
  pose proof (inv_pending I) as F. rewrite Forall_forall in F.
  apply F. eapply nth_error_In. exact Hk.
Qed.

(** ** The dispatch gate *)

Lemma launch_rejected (y : Sys) (text : string) :
  trim text = "" \/ loadingRef (ui y) = true ->
  launch (sendMessage text (ui y)) y
  = mkSys (ui y) (pending y) (requests y) (outcomes y ++ [Normal])
          (rendered y) (effect y).
Proof. intros H. now rewrite sendMessage_rejected. Qed.

Lemma launch_accepted (y : Sys) (text : string) :
  trim text <> "" -> loadingRef (ui y) = false ->
  launch (sendMessage text (ui y)) y
  = mkSys (dispatched text (ui y)) (pending y ++ [resume])
          (requests y ++ [ (trim text, sessionId (ui y)) ]) (outcomes y)
          (rendered y) (effect y).
Proof. intros Hnb Hfree. now rewrite sendMessage_accepted. Qed.

(** A send enters [sendMessage] with its text. *)
Lemma step_send (y : Sys) (e : Event) :
  isSend e = true ->
  step y e = launch (sendMessage (sendText e (ui y)) (ui y)) y.
Proof.
  destruct e as [v| |key shiftKey|r text|i r| |]; simpl; try discriminate; intros Hs.
  - reflexivity.
  - unfold handleKeyPress. now rewrite Hs.
  - unfold onTranscription. now rewrite Hs.
Qed.

Lemma step_send_rejected (y : Sys) (e : Event) :
  isSend e = true ->
  trim (sendText e (ui y)) = "" \/ loadingRef (ui y) = true ->
  step y e = mkSys (ui y) (pending y) (requests y) (outcomes y ++ [Normal])
                   (rendered y) (effect y).
Proof. intros Hs H. now rewrite step_send, launch_rejected. Qed.

(** A send that finds the gate taken changes neither the cells, nor the
    calls made, nor the dispatches in flight. *)
Lemma step_send_busy (y : Sys) (e : Event) :
  isSend e = true -> loadingRef (ui y) = true ->
  ui (step y e) = ui y /\ pending (step y e) = pending y
  /\ requests (step y e) = requests y.
Proof.
  intros Hs Hg. rewrite step_send_rejected by auto. auto.
Qed.

Lemma setLoadingRef_same (s : State) : setLoadingRef (loadingRef s) s = s.
Proof. now destruct s. Qed.

Lemma runEffect_inSync (y : Sys) :
  effectInSync y = true -> ui (runEffect y) = ui y /\ pending (runEffect y) = pending y.
Proof.
  unfold effectInSync, runEffect. destruct (effect y) as [v|]; [|auto].
  intros H. apply Bool.eqb_prop in H. subst v. simpl.
  unfold loadingEffect. now rewrite setLoadingRef_same.
Qed.

Lemma gate_launch_send (y : Sys) (text : string) :
  gateHeldByPending y -> gateHeldByPending (launch (sendMessage text (ui y)) y).
Proof.
  unfold gateHeldByPending. intros G.
  destruct (sendMessage_cases text (ui y)) as [[E _]|[E [_ Hfree]]]; rewrite E; simpl.
  - exact G.
  - rewrite G, Hfree. reflexivity.
Qed.

Lemma gate_step (y : Sys) (e : Event) :
  gateHeldByPending y ->
  match e with
  | Render | LoadingEffect => effectInSync y = true
  | _ => True
  end ->
  gateHeldByPending (step y e).
Proof.
  intros G Hsync. destruct e as [v| |key shiftKey|r text|i r| |]; simpl.
  - exact G.
  - now apply gate_launch_send.
  - unfold handleKeyPress. destruct (String.eqb key "Enter" && negb shiftKey).
    + now apply gate_launch_send.
    + exact G.
  - unfold onTranscription. destruct r; simpl.
    + now apply gate_launch_send.
    + exact G.
  - unfold settle. destruct (nth_error (pending y) i) as [k|] eqn:Hk; [|exact G].
    unfold gateHeldByPending in G. rewrite G in Hk |- *.
    destruct (loadingRef (ui y)).
    + destruct i as [|[|j]]; simpl in Hk; try discriminate. inversion Hk. subst k.
      destruct (resume r (ui y)) as [s c] eqn:Er.
      pose proof (resume_releases r (ui y)) as [H1 _]. rewrite Er in H1.
      unfold gateHeldByPending. simpl in *. now rewrite H1.
    + destruct i; discriminate.
  - destruct (runEffect_inSync y Hsync) as [Hu Hp].
    unfold gateHeldByPending, render, commit. simpl. rewrite Hu, Hp. exact G.
  - destruct (runEffect_inSync y Hsync) as [Hu Hp].
    unfold gateHeldByPending. rewrite Hu, Hp. exact G.
Qed.

Lemma gate_run (evs : list Event) (y : Sys) :
  effectsInSync evs y = true -> gateHeldByPending y ->
  gateHeldByPending (run evs y).
Proof.
  revert y. induction evs as [|e evs IH]; simpl; intros y Hs G; [exact G|].
  apply andb_true_iff in Hs as [He Hs]. apply IH; [exact Hs|].
  apply gate_step; [exact G|]. destruct e; auto.
Qed.

(** C1 (amended): the gate starts false.  [sendMessage] reads the gate
    and, when it accepts, sets it true in the same synchronous half, with
    no suspension point in between: at any state it either returns at
    once, normally and with every cell as it found it (so a send that
    finds the gate true never passes the check, and an early rejection
    does not reset the gate), or it awaits with the gate true.  The
    second half resets the gate on success and on failure and completes
    normally.  As long as every run of the effect of lines 90-92 writes
    the value the gate already has, at most one dispatch is in flight
    and the gate is true exactly when one is. *)
Theorem dispatch_gate_exclusive
  (now : N) (evs : list Event) (Hsync : effectsInSync evs (boot now) = true) :
  loadingRef (ui (boot now)) = false
  /\ inFlight (run evs (boot now)) <= 1
  /\ (loadingRef (ui (run evs (boot now))) = true
      <-> inFlight (run evs (boot now)) = 1)
  /\ (forall s text,
        match sendMessage text s with
        | Await _ _ s1 _ => loadingRef s = false /\ loadingRef s1 = true
        | Done c s1 => c = Normal /\ s1 = s
        end)
  /\ (forall s text, loadingRef s = true -> sendMessage text s = Done Normal s)
  /\ (forall y e, isSend e = true -> loadingRef (ui y) = true ->
        ui (step y e) = ui y /\ pending (step y e) = pending y
        /\ requests (step y e) = requests y)
  /\ (forall r s,
        loadingRef (fst (resume r s)) = false /\ snd (resume r s) = Normal)
  /\ (forall y i r, reachable y -> nth_error (pending y) i <> None ->
        loadingRef (ui (settle i r y)) = false).
Proof.
  assert (G : gateHeldByPending (run evs (boot now)))
    by (apply gate_run; [exact Hsync | reflexivity]).
  unfold gateHeldByPending in G.
  split; [reflexivity|].
  split; [unfold inFlight; rewrite G;
          destruct (loadingRef (ui (run evs (boot now)))); simpl; lia|].
  split; [unfold inFlight; rewrite G;
          destruct (loadingRef (ui (run evs (boot now)))); simpl; split; congruence|].
  split; [|split; [|split; [|split]]].
  - intros s text.
    destruct (sendMessage_cases text s) as [[E _]|[E [_ Hfree]]]; rewrite E; auto.
  - intros s text Hg. apply sendMessage_rejected. now right.
  - intros y e. apply step_send_busy.
  - intros r s. split; [apply resume_releases | apply resume_normal].
  - intros y i r Hr Hi. unfold settle.
    destruct (nth_error (pending y) i) as [k|] eqn:Hk; [|congruence].
    rewrite (reachable_pending i Hr Hk).
    destruct (resume r (ui y)) as [s c] eqn:Er. simpl.
    pose proof (resume_releases r (ui y)) as [H1 _]. now rewrite Er in H1.
Qed.

Lemma dispatch_gate_exclusive_witness :
  inFlight (run [ LoadingEffect; Transcription user "hi"; Render;
                  LoadingEffect; ClickSend; Transcription user "again";
                  Settle 0 (Fulfilled (mkResponse "Hello" None)); Render;
                  LoadingEffect; Transcription user "again" ] (boot 0)) <= 1.
Proof.
  refine (proj1 (proj2 (@dispatch_gate_exclusive 0
    [ LoadingEffect; Transcription user "hi"; Render; LoadingEffect;
      ClickSend; Transcription user "again";
      Settle 0 (Fulfilled (mkResponse "Hello" None)); Render;
      LoadingEffect; Transcription user "again" ] _))).
  reflexivity.
Defined.

(** C1, as stated, fails twice.  On the early rejection: with the
    dispatch of "hi" in flight, [sendMessage "again"] returns at line 40
    and the gate is still true, it has not been reset.  On the exclusion:
    the dispatch of "A" is made, rendered and answered; the next render
    schedules the effect with [loading = false]; the voice transcription
    "B" is dispatched before that effect runs; the effect then writes
    [false] over the gate that "B" has taken, and the voice transcription
    "C" passes the check while "B" is still in flight. *)
Lemma stale_effect_admits_second_dispatch :
  (sendMessage "again" (ui (run [Transcription user "hi"] (boot 0)))
   = Done Normal (ui (run [Transcription user "hi"] (boot 0)))
   /\ loadingRef (ui (run [Transcription user "hi"] (boot 0))) = true)
  /\ loadingRef
       (ui (run (staleEffectRun "A" "B" (Fulfilled (mkResponse "a" None)))
                (boot 0))) = false
  /\ inFlight (run (staleEffectRun "A" "B" (Fulfilled (mkResponse "a" None)))
                   (boot 0)) = 1
  /\ inFlight (run (staleEffectRun "A" "B" (Fulfilled (mkResponse "a" None))
                      ++ [Transcription user "C"]) (boot 0)) = 2
  /\ requests (run (staleEffectRun "A" "B" (Fulfilled (mkResponse "a" None))
                      ++ [Transcription user "C"]) (boot 0))
     = [ ("A", "session-0"); ("B", "session-0"); ("C", "session-0") ].
Proof. repeat split. Qed.

(** ** Accepted dispatches *)

(** The user turn of an accepted dispatch, by the turn the transcript
    ends with. *)
Lemma dispatched_after (text : string) (s : State) (h : list Message) (m : Message) :
  messages s = h ++ [m] ->
  messages (dispatched text s)
  = if Role_eqb (role m) user && String.eqb (content m) (trim text)
    then messages s
    else messages s ++ [ mkMessage user (trim text) None ].
Proof.
  intros Hl. simpl. unfold appendUpdater. rewrite Hl, sameAsLast_snoc. reflexivity.
Qed.

Lemma step_voice_request (y : Sys) (text : string) :
  loadingRef (ui y) = false -> trim text <> "" ->
  requests (step y (Transcription user text))
  = requests y ++ [ (trim text, sessionId (ui y)) ].
Proof.
  intros Hfree Hnb. rewrite step_send by reflexivity. simpl sendText.
  now rewrite launch_accepted.
Qed.

(** C2 (amended): at any state with the gate free, a dispatch of a
    non-blank text takes the gate and hands the user turn, with the
    trimmed text, to the deduplicating append in one synchronous step,
    and calls the text collaborator with the trimmed text and the session
    id; the user turn is added unless the transcript already ends with a
    user turn of that content.  When the call succeeds, whatever the
    state in which the reply arrives, the dispatch appends exactly one
    assistant turn with the returned content and citations, releases the
    gate and completes normally.  So when the user turn is added, in
    particular whenever the transcript ends with an assistant turn, and
    nothing comes in between, the transcript grows by exactly two turns,
    the user turn then the assistant turn. *)
Theorem successful_dispatch_two_turns
  (s : State) (text : string) (resp : ChatResponse)
  (Hfree : loadingRef s = false) (Hnb : trim text <> "") :
  sendMessage text s
  = Await (trim text) (sessionId s) (dispatched text s) resume
  /\ loadingRef (dispatched text s) = true
  /\ (forall h m, messages s = h ++ [m] ->
        messages (dispatched text s)
        = if Role_eqb (role m) user && String.eqb (content m) (trim text)
          then messages s
          else messages s ++ [ mkMessage user (trim text) None ])
  /\ (messages s = [] ->
        messages (dispatched text s) = [ mkMessage user (trim text) None ])
  /\ (forall s2,
        resume (Fulfilled resp) s2
        = (released (messages s2
                     ++ [ mkMessage assistant (response resp) (response_sources resp) ])
                    s2, Normal))
  /\ loadingRef (fst (resume (Fulfilled resp) (dispatched text s))) = false
  /\ (sameAsLast (messages s) user (trim text) = false ->
        messages (fst (resume (Fulfilled resp) (dispatched text s)))
        = messages s
            ++ [ mkMessage user (trim text) None;
                 mkMessage assistant (response resp) (response_sources resp) ])
  /\ (endsWithAssistant (messages s) ->
        messages (fst (resume (Fulfilled resp) (dispatched text s)))
        = messages s
            ++ [ mkMessage user (trim text) None;
                 mkMessage assistant (response resp) (response_sources resp) ])
  /\ (forall y, ui y = s ->
        requests (step y (Transcription user text))
        = requests y ++ [ (trim text, sessionId s) ]).
Proof.
  assert (Htwo : sameAsLast (messages s) user (trim text) = false ->
            messages (fst (resume (Fulfilled resp) (dispatched text s)))
            = messages s
                ++ [ mkMessage user (trim text) None;
                     mkMessage assistant (response resp) (response_sources resp) ]).
  { intros Hl. rewrite resume_fulfilled. cbn [fst released messages].
    rewrite dispatched_messages by assumption. now rewrite <- app_assoc. }
  split; [now apply sendMessage_accepted|].
  split; [reflexivity|].
  split; [intros h m; apply dispatched_after|].
  split; [intros H0; simpl; now rewrite H0|].
  split; [intros s2; apply resume_fulfilled|].
  split; [reflexivity|].
  split; [exact Htwo|].
  split.
  - intros He. apply Htwo. now apply endsWithAssistant_not_user.
  - intros y <-. now apply step_voice_request.
Qed.

Lemma successful_dispatch_two_turns_witness :
  messages (fst (resume (Fulfilled (mkResponse "A deductible is..."
                                      (Some [ mkSource "Policy 4" (Some "https://x/4") ])))
                   (dispatched "What is a deductible?" (init 0))))
  = messages (init 0)
      ++ [ mkMessage user (trim "What is a deductible?") None;
           mkMessage assistant "A deductible is..."
             (Some [ mkSource "Policy 4" (Some "https://x/4") ]) ].
Proof.
  refine (proj1 (proj2 (proj2 (proj2 (proj2 (proj2 (proj2
    (@successful_dispatch_two_turns (init 0) "What is a deductible?"
       (mkResponse "A deductible is..."
          (Some [ mkSource "Policy 4" (Some "https://x/4") ])) _ _))))))) _).
  - reflexivity.
  - simpl. discriminate.
  - reflexivity.
Defined.

(** C2, as stated, fails twice.  On the argument of the call: for the
    raw text "  hi  " the collaborator is called with "hi", not with the
    raw text.  On the growth: after the stale effect has reset the gate
    taken by the voice transcription "B", the same transcription
    delivered again passes the check at line 40; line 43 drops its user
    turn, equal to the last turn, line 48 still calls; when that call
    succeeds the dispatch has added one turn, not two. *)
Lemma accepted_dispatch_adds_one_turn :
  (requests (run [Transcription user "  hi  "] (boot 0)) = [ ("hi", "session-0") ]
   /\ "hi" <> "  hi  ")
  /\ messages (ui (run (staleEffectRun "A" "B" (Fulfilled (mkResponse "a" None)))
                       (boot 0)))
     = [ mkMessage assistant greeting None; mkMessage user "A" None;
         mkMessage assistant "a" None; mkMessage user "B" None ]
  /\ requests (run (staleEffectRun "A" "B" (Fulfilled (mkResponse "a" None))
                      ++ [ Transcription user "B" ]) (boot 0))
     = [ ("A", "session-0"); ("B", "session-0"); ("B", "session-0") ]
  /\ messages (ui (run (staleEffectRun "A" "B" (Fulfilled (mkResponse "a" None))
                          ++ [ Transcription user "B" ]) (boot 0)))
     = [ mkMessage assistant greeting None; mkMessage user "A" None;
         mkMessage assistant "a" None; mkMessage user "B" None ]
  /\ messages (ui (run (staleEffectRun "A" "B" (Fulfilled (mkResponse "a" None))
                          ++ [ Transcription user "B";
                               Settle 1 (Fulfilled (mkResponse "b" None)) ])
                       (boot 0)))
     = [ mkMessage assistant greeting None; mkMessage user "A" None;
         mkMessage assistant "a" None; mkMessage user "B" None;
         mkMessage assistant "b" None ].
Proof. repeat split. discriminate. Qed.

(** C3 (amended): at any state with the gate free, a dispatch of a
    non-blank text hands its user turn to the deduplicating append, which
    adds it unless the transcript already ends with a user turn of that
    content.  When the call fails, for any reason and whatever the state
    in which the failure arrives, the dispatch completes normally
    (nothing is thrown out of it), releases the gate and hands the fixed
    failure content to the deduplicating append: exactly one assistant
    turn with that content is added, unless the transcript already ends
    with an assistant turn of that content, and in both cases the
    transcript then ends with such a turn.  So when the user turn is
    added, in particular whenever the transcript ends with an assistant
    turn, and nothing comes in between, the transcript grows by exactly
    two turns, the user turn then the failure turn. *)
Theorem failed_dispatch_recovers
  (s : State) (text : string) (e : Thrown)
  (Hfree : loadingRef s = false) (Hnb : trim text <> "") :
  sendMessage text s
  = Await (trim text) (sessionId s) (dispatched text s) resume
  /\ (forall h m, messages s = h ++ [m] ->
        messages (dispatched text s)
        = if Role_eqb (role m) user && String.eqb (content m) (trim text)
          then messages s
          else messages s ++ [ mkMessage user (trim text) None ])
  /\ (forall s2,
        snd (resume (Rejected e) s2) = Normal
        /\ loadingRef (fst (resume (Rejected e) s2)) = false
        /\ loading (fst (resume (Rejected e) s2)) = false
        /\ (forall h m, messages s2 = h ++ [m] ->
              messages (fst (resume (Rejected e) s2))
              = if Role_eqb (role m) assistant
                   && String.eqb (content m) failureContent
                then messages s2
                else messages s2 ++ [ mkMessage assistant failureContent None ])
        /\ (messages s2 = [] ->
              messages (fst (resume (Rejected e) s2))
              = [ mkMessage assistant failureContent None ])
        /\ exists m, lastMessage (messages (fst (resume (Rejected e) s2))) = Some m
                     /\ role m = assistant /\ content m = failureContent)
  /\ (sameAsLast (messages s) user (trim text) = false ->
        messages (fst (resume (Rejected e) (dispatched text s)))
        = messages s
            ++ [ mkMessage user (trim text) None;
                 mkMessage assistant failureContent None ])
  /\ (endsWithAssistant (messages s) ->
        messages (fst (resume (Rejected e) (dispatched text s)))
        = messages s
            ++ [ mkMessage user (trim text) None;
                 mkMessage assistant failureContent None ]).
Proof.
  assert (Htwo : sameAsLast (messages s) user (trim text) = false ->
            messages (fst (resume (Rejected e) (dispatched text s)))
            = messages s
                ++ [ mkMessage user (trim text) None;
                     mkMessage assistant failureContent None ]).
  { intros Hl. rewrite resume_rejected. cbn [fst released messages].
    rewrite dispatched_messages by assumption.
    apply appendUpdater_added. simpl. intros [H _]. discriminate. }
  split; [now apply sendMessage_accepted|].
  split; [intros h m; apply dispatched_after|].
  split; [|split; [exact Htwo|]].
  - intros s2. rewrite resume_rejected. cbn [fst snd released messages loadingRef loading].
    split; [reflexivity|]. split; [reflexivity|]. split; [reflexivity|].
    split; [|split].
    + intros h m Hl. unfold appendUpdater. now rewrite Hl, sameAsLast_snoc.
    + intros H0. now rewrite H0.
    + apply appendUpdater_last.
  - intros He. apply Htwo. now apply endsWithAssistant_not_user.
Qed.

Lemma failed_dispatch_recovers_witness :
  messages (fst (resume (Rejected (thrown "Network Error"))
                   (dispatched "hi" (init 0))))
  = messages (init 0)
      ++ [ mkMessage user (trim "hi") None;
           mkMessage assistant failureContent None ].
Proof.
  refine (proj1 (proj2 (proj2 (proj2
    (@failed_dispatch_recovers (init 0) "hi" (thrown "Network Error") _ _)))) _).
  - reflexivity.
  - simpl. discriminate.
  - reflexivity.
Defined.

(** C3, as stated, fails when the voice assistant has said the failure
    sentence while the dispatch was in flight: the dispatch of "hi" is
    accepted, the voice turn is appended, the call fails, and the
    deduplicating append of line 59 adds nothing, so the failing dispatch
    has appended no assistant turn. *)
Lemma failure_turn_deduplicated :
  messages (ui (run [Transcription user "hi";
                     Transcription assistant failureContent] (boot 0)))
  = [ mkMessage assistant greeting None;
      mkMessage user "hi" None;
      mkMessage assistant failureContent None ]
  /\ messages (ui (run [Transcription user "hi";
                        Transcription assistant failureContent;
                        Settle 0 (Rejected (thrown "Network Error"))] (boot 0)))
     = messages (ui (run [Transcription user "hi";
                          Transcription assistant failureContent] (boot 0)))
  /\ pending (run [Transcription user "hi";
                   Transcription assistant failureContent;
                   Settle 0 (Rejected (thrown "Network Error"))] (boot 0)) = [].
Proof. repeat split. Qed.

(** ** Rejected sends *)




(** C7: for every input whose trim is empty (in particular every input
    made of white space only) [sendMessage] returns at once and leaves
    every cell as it was: no turn, no collaborator call, the gate not
    taken; from the greeting transcript, typing two spaces and sending
    leaves the transcript at length 1. *)
Theorem blank_input_is_noop (text : string) (s : State) (Hblank : trim text = "") :
  sendMessage text s = Done Normal s
  /\ (forall y e, isSend e = true -> sendText e (ui y) = text ->
        ui (step y e) = ui y /\ pending (step y e) = pending y
        /\ requests (step y e) = requests y)
  /\ (forall now,
        List.length (messages (ui (run [Change "  "; ClickSend] (boot now)))) = 1
        /\ loadingRef (ui (run [Change "  "; ClickSend] (boot now))) = false
        /\ requests (run [Change "  "; ClickSend] (boot now)) = []
        /\ messages (ui (run [Transcription user "  "] (boot now)))
           = messages (init now)).
Proof.
  split; [apply sendMessage_rejected; now left|].
  split.
  - intros y e Hs Ht. rewrite step_send_rejected; auto.
    left. now rewrite Ht.
  - intros now. repeat split.
Qed.

Lemma blank_input_is_noop_witness :
  sendMessage "  " (init 0) = Done Normal (init 0).
Proof.
  refine (proj1 (@blank_input_is_noop "  " (init 0) _)).
  reflexivity.
Defined.

(** ** Voice transcriptions *)


Lemma dropNth_snoc (A : Type) (l : list A) (x : A) :
  dropNth (List.length l) (l ++ [x]) = l.
Proof. induction l as [|a l IH]; simpl; [reflexivity | now rewrite IH]. Qed.


(** The first waiting continuation of a reachable state is [resume]. *)
Lemma settle_first (y : Sys) (r : Settled) :
  Forall (fun k => k = resume) (pending y) -> pending y <> [] ->
  ui (settle 0 r y) = fst (resume r (ui y)).
Proof.
  intros F Hne. unfold settle. destruct (pending y) as [|k l]; [congruence|].
  inversion F as [|k' l' Hk Hl]. subst. simpl.
  now destruct (resume r (ui y)).
Qed.




(** C9: the gate does not guard the transcript.  From a reachable state
    with the gate free, dispatch a non-blank text, deliver a voice
    transcription of the assistant while the call is pending, then let
    the call succeed: the voice turn is appended at once, right after
    what the dispatch left, the gate stays true, and the reply follows
    the voice turn; when the dispatch has added its user turn, the
    transcript ends with the user turn, the voice turn and the reply, so
    the two turns of the dispatch are not adjacent.  In any state with
    the gate true the voice turn goes through the deduplicating append
    and nothing else changes. *)
Theorem voice_assistant_turn_not_gated
  (y : Sys) (text vtext : string) (resp : ChatResponse)
  (Hr : reachable y) (Hfree : loadingRef (ui y) = false) (Hnb : trim text <> "") :
  loadingRef (ui (step y (Transcription user text))) = true
  /\ messages (ui (run [Transcription user text; Transcription assistant vtext] y))
     = appendUpdater user (trim text) (messages (ui y))
         ++ [ mkMessage assistant vtext None ]
  /\ loadingRef (ui (run [Transcription user text; Transcription assistant vtext] y))
     = true
  /\ messages (ui (run [Transcription user text; Transcription assistant vtext;
                        Settle 0 (Fulfilled resp)] y))
     = appendUpdater user (trim text) (messages (ui y))
         ++ [ mkMessage assistant vtext None;
              mkMessage assistant (response resp) (response_sources resp) ]
  /\ (sameAsLast (messages (ui y)) user (trim text) = false ->
      messages (ui (run [Transcription user text; Transcription assistant vtext] y))
      = messages (ui y)
          ++ [ mkMessage user (trim text) None; mkMessage assistant vtext None ]
      /\ messages (ui (run [Transcription user text; Transcription assistant vtext;
                            Settle 0 (Fulfilled resp)] y))
         = messages (ui y)
             ++ [ mkMessage user (trim text) None;
                  mkMessage assistant vtext None;
                  mkMessage assistant (response resp) (response_sources resp) ])
  /\ (forall z vt, loadingRef (ui z) = true ->
        messages (ui (step z (Transcription assistant vt)))
        = appendUpdater assistant vt (messages (ui z))
        /\ loadingRef (ui (step z (Transcription assistant vt))) = true
        /\ pending (step z (Transcription assistant vt)) = pending z
        /\ requests (step z (Transcription assistant vt)) = requests z).
Proof.
  assert (Hy1 : step y (Transcription user text)
                = mkSys (dispatched text (ui y)) (pending y ++ [resume])
                    (requests y ++ [ (trim text, sessionId (ui y)) ]) (outcomes y)
                    (rendered y) (effect y)).
  { rewrite step_send by reflexivity. now apply launch_accepted. }
  assert (Hm2 : appendUpdater assistant vtext (messages (dispatched text (ui y)))
                = appendUpdater user (trim text) (messages (ui y))
                    ++ [ mkMessage assistant vtext None ]).
  { cbn [dispatched messages].
    destruct (appendUpdater_last (messages (ui y)) user (trim text))
      as [m [Hl [Hro _]]].
    apply (@appendUpdater_other _ assistant vtext m Hl).
    rewrite Hro. discriminate. }
  assert (Hy2 : run [Transcription user text; Transcription assistant vtext] y
                = mkSys (appendMessage assistant vtext (dispatched text (ui y)))
                    (pending y ++ [resume])
                    (requests y ++ [ (trim text, sessionId (ui y)) ])
                    (outcomes y ++ [Normal]) (rendered y) (effect y)).
  { unfold run. cbn [fold_left]. now rewrite Hy1. }
  assert (H3 : messages (ui (run [Transcription user text;
                                  Transcription assistant vtext;
                                  Settle 0 (Fulfilled resp)] y))
               = appendUpdater user (trim text) (messages (ui y))
                   ++ [ mkMessage assistant vtext None;
                        mkMessage assistant (response resp) (response_sources resp) ]).
  { change [Transcription user text; Transcription assistant vtext;
            Settle 0 (Fulfilled resp)]
      with ([Transcription user text; Transcription assistant vtext]
              ++ [Settle 0 (Fulfilled resp)]).
    rewrite run_app. unfold run at 1. cbn [fold_left step].
    rewrite settle_first.
    + rewrite Hy2, resume_fulfilled. cbn [ui fst released messages].
      change (messages (appendMessage assistant vtext (dispatched text (ui y))))
        with (appendUpdater assistant vtext (messages (dispatched text (ui y)))).
      rewrite Hm2. now rewrite <- app_assoc.
    + destruct (reachable_Inv (reachable_run
                  [Transcription user text; Transcription assistant vtext] Hr))
        as [sid I]. exact (inv_pending I).
    + rewrite Hy2. cbn [pending]. destruct (pending y); discriminate. }
  split; [now rewrite Hy1|].
  split; [rewrite Hy2; exact Hm2|].
  split; [now rewrite Hy2|].
  split; [exact H3|].
  split.
  - intros Hlast. rewrite H3, Hy2.
    change (messages (ui (mkSys (appendMessage assistant vtext (dispatched text (ui y)))
                                (pending y ++ [resume])
                                (requests y ++ [ (trim text, sessionId (ui y)) ])
                                (outcomes y ++ [Normal]) (rendered y) (effect y))))
      with (appendUpdater assistant vtext (messages (dispatched text (ui y)))).
    rewrite Hm2. unfold appendUpdater at 1 2. rewrite Hlast.
    rewrite <- !app_assoc. auto.
  - intros z vt Hg. repeat split. exact Hg.
Qed.

Lemma voice_assistant_turn_not_gated_witness :
  messages (ui (run [Transcription user "hi"; Transcription assistant "Bonjour";
                     Settle 0 (Fulfilled (mkResponse "Hello" None))] (boot 0)))
  = messages (ui (boot 0))
      ++ [ mkMessage user (trim "hi") None;
           mkMessage assistant "Bonjour" None;
           mkMessage assistant "Hello" None ].
Proof.
  refine (proj2 (proj1 (proj2 (proj2 (proj2 (proj2
    (@voice_assistant_turn_not_gated (boot 0) "hi" "Bonjour"
       (mkResponse "Hello" None) _ _ _))))) _)).
  - exists 0%N, []. reflexivity.
  - reflexivity.
  - simpl. discriminate.
  - reflexivity.
Defined.

(** C10: at any state, an accepted dispatch hands one and the same
    string, the trim of the input, to the text collaborator and to the
    append of the user turn: the call is made with it, the user turn that
    is added has it as content, and the transcript then ends with a user
    turn of that content (the one added, or the equal one that was
    already last).  The input is that string between two runs of white
    space, and the string neither starts nor ends with white space; an
    input that differs from its trim is never what the collaborator
    receives. *)
Theorem dispatch_uses_trimmed_text
  (s : State) (text : string)
  (Hfree : loadingRef s = false) (Hnb : trim text <> "") :
  (exists s1 k m,
     sendMessage text s = Await (trim text) (sessionId s) s1 k
     /\ lastMessage (messages s1) = Some m
     /\ role m = user /\ content m = trim text
     /\ (messages s1 = messages s
         \/ messages s1 = messages s ++ [ mkMessage user (trim text) None ])
     /\ (forall h x, messages s = h ++ [x] ->
           messages s1
           = if Role_eqb (role x) user && String.eqb (content x) (trim text)
             then messages s
             else messages s ++ [ mkMessage user (trim text) None ]))
  /\ (forall y, ui y = s ->
        requests (step y (Transcription user text))
        = requests y ++ [ (trim text, sessionId s) ])
  /\ (exists pre post,
        text = (pre ++ trim text ++ post)%string
        /\ allWhiteSpace pre = true /\ allWhiteSpace post = true)
  /\ notWhite (firstChar (trim text))
  /\ notWhite (lastChar (trim text))
  /\ (text <> trim text ->
      forall sid s1 k, sendMessage text s <> Await text sid s1 k).
Proof.
  split.
  - destruct (appendUpdater_last (messages s) user (trim text)) as [m [Hl [Hr Hc]]].
    exists (dispatched text s), resume, m.
    split; [now apply sendMessage_accepted|].
    split; [exact Hl|]. split; [exact Hr|]. split; [exact Hc|].
    split.
    + simpl. unfold appendUpdater.
      destruct (sameAsLast (messages s) user (trim text)); auto.
    + intros h x. apply dispatched_after.
  - split.
    + intros y <-. now apply step_voice_request.
    + split; [apply trim_split|].
      split; [apply trim_first|].
      split; [apply trim_last|].
      intros Hne sid s1 k. rewrite sendMessage_accepted by assumption.
      intros H. inversion H. congruence.
Qed.

Lemma dispatch_uses_trimmed_text_witness :
  requests (step (boot 0) (Transcription user "  hi  "))
  = requests (boot 0) ++ [ (trim "  hi  ", sessionId (init 0)) ].
Proof.
  refine (proj1 (proj2
    (@dispatch_uses_trimmed_text (init 0) "  hi  " _ _)) (boot 0) _).
  - reflexivity.
  - simpl. discriminate.
  - reflexivity.
Defined.

(** ** Voice status *)

Lemma react_status_cases (st : VoiceSession.VoiceStatus) (sg : VoiceSession.Signal) :
  fst (VoiceSession.react st sg) = st
  \/ VoiceSession.edge st (fst (VoiceSession.react st sg)) = true.
Proof. destruct sg, st; simpl; auto. Qed.

Lemma statusAfter_snoc (sgs : list VoiceSession.Signal) (sg : VoiceSession.Signal)
      (st : VoiceSession.VoiceStatus) :
  VoiceSession.statusAfter (sgs ++ [sg]) st
  = fst (VoiceSession.react (VoiceSession.statusAfter sgs st) sg).
Proof. unfold VoiceSession.statusAfter. now rewrite fold_left_app. Qed.

(** C8 (amended): the voice status starts at idle and every reaction
    either leaves it unchanged or follows one of the edges idle to
    connecting, connecting to ready, connecting to error, connecting to
    idle, ready to idle, ready to error, error to connecting; [start()]
    goes to connecting from idle and from error and is a no-op from
    connecting and from ready; [stop()] tears down the channel and goes to
    idle from connecting and from ready and is a no-op from idle and from
    error. *)
Theorem voice_status_edges (st : VoiceSession.VoiceStatus) (sg : VoiceSession.Signal) :
  VoiceSession.initial = VoiceSession.idle
  /\ (fst (VoiceSession.react st sg) = st
      \/ VoiceSession.edge st (fst (VoiceSession.react st sg)) = true)
  /\ (forall sgs,
        VoiceSession.statusAfter (sgs ++ [sg]) VoiceSession.initial
        = VoiceSession.statusAfter sgs VoiceSession.initial
        \/ VoiceSession.edge (VoiceSession.statusAfter sgs VoiceSession.initial)
             (VoiceSession.statusAfter (sgs ++ [sg]) VoiceSession.initial) = true)
  /\ VoiceSession.start VoiceSession.idle
     = (VoiceSession.connecting, [VoiceSession.OpenChannel])
  /\ (forall m, VoiceSession.start (VoiceSession.error m)
                = (VoiceSession.connecting, [VoiceSession.OpenChannel]))
  /\ VoiceSession.start VoiceSession.connecting = (VoiceSession.connecting, [])
  /\ VoiceSession.start VoiceSession.ready = (VoiceSession.ready, [])
  /\ VoiceSession.stop VoiceSession.connecting
     = (VoiceSession.idle, [VoiceSession.TearDown])
  /\ VoiceSession.stop VoiceSession.ready
     = (VoiceSession.idle, [VoiceSession.TearDown])
  /\ VoiceSession.stop VoiceSession.idle = (VoiceSession.idle, [])
  /\ (forall m, VoiceSession.stop (VoiceSession.error m) = (VoiceSession.error m, [])).
Proof.
  split; [reflexivity|].
  split; [apply react_status_cases|].
  split.
  - intros sgs. rewrite statusAfter_snoc. apply react_status_cases.
  - repeat split.
Qed.

(** C8, as stated, fails on [stop()] while connecting: the status goes
    from connecting, reached from idle by [start()], to idle, and
    connecting to idle is not one of the six listed edges. *)
Lemma stop_while_connecting_leaves_listed_edges :
  VoiceSession.statusAfter [VoiceSession.Start] VoiceSession.initial
  = VoiceSession.connecting
  /\ fst (VoiceSession.stop VoiceSession.connecting) = VoiceSession.idle
  /\ VoiceSession.sameStatus VoiceSession.connecting VoiceSession.idle = false
  /\ VoiceSession.listedEdge VoiceSession.connecting VoiceSession.idle = false.
Proof. repeat split. Qed.


(** * Further properties of the page *)

(** ** What one event does to the transcript and to the calls *)

Lemma appendUpdater_cases (r : Role) (c : string) (l : list Message) :
  appendUpdater r c l = l \/ appendUpdater r c l = l ++ [ mkMessage r c None ].
Proof. unfold appendUpdater. destruct (sameAsLast l r c); auto. Qed.

(** An event either makes no call, and then leaves the transcript as it
    is or adds one assistant turn, or it is an accepted dispatch: one
    call, one more continuation waiting, and the user turn handed to the
    deduplicating append. *)
Lemma step_joint (sid : string) (y : Sys) (e : Event) :
  Inv sid y ->
  (requests (step y e) = requests y
   /\ (pending y = [] -> pending (step y e) = [])
   /\ (messages (ui (step y e)) = messages (ui y)
       \/ exists m, isUserTurn m = false
                    /\ messages (ui (step y e)) = messages (ui y) ++ [m]))
  \/ (exists text,
        requests (step y e) = requests y ++ [ (text, sessionId (ui y)) ]
        /\ pending (step y e) = pending y ++ [resume]
        /\ messages (ui (step y e)) = appendUpdater user text (messages (ui y))).
Proof.
  intros I.
  assert (Hsend : forall text,
    (requests (launch (sendMessage text (ui y)) y) = requests y
     /\ (pending y = [] -> pending (launch (sendMessage text (ui y)) y) = [])
     /\ (messages (ui (launch (sendMessage text (ui y)) y)) = messages (ui y)
         \/ exists m, isUserTurn m = false
              /\ messages (ui (launch (sendMessage text (ui y)) y))
                 = messages (ui y) ++ [m]))
    \/ (exists t,
          requests (launch (sendMessage text (ui y)) y)
          = requests y ++ [ (t, sessionId (ui y)) ]
          /\ pending (launch (sendMessage text (ui y)) y) = pending y ++ [resume]
          /\ messages (ui (launch (sendMessage text (ui y)) y))
             = appendUpdater user t (messages (ui y)))).
  { intros text.
    destruct (sendMessage_cases text (ui y)) as [[E _]|[E _]]; rewrite E.
    - left. simpl. auto.
    - right. exists (trim text). simpl. auto. }
  assert (Hsame : forall y', requests y' = requests y -> pending y' = pending y ->
                             messages (ui y') = messages (ui y) ->
    requests y' = requests y
    /\ (pending y = [] -> pending y' = [])
    /\ (messages (ui y') = messages (ui y)
        \/ exists m, isUserTurn m = false
                     /\ messages (ui y') = messages (ui y) ++ [m])).
  { intros y' Hq Hp Hm. split; [exact Hq|]. split; [congruence | now left]. }
  destruct e as [v| |key shiftKey|r text|i r| |]; simpl.
  - left. now apply Hsame.
  - apply Hsend.
  - unfold handleKeyPress. destruct (String.eqb key "Enter" && negb shiftKey).
    + apply Hsend.
    + left. now apply Hsame.
  - unfold onTranscription. destruct r; simpl; [apply Hsend|].
    left. split; [reflexivity|]. split; [auto|].
    destruct (appendUpdater_cases assistant text (messages (ui y))) as [H|H];
      rewrite H; [now left | right; eexists; split; [|reflexivity]; reflexivity].
  - left. unfold settle.
    destruct (nth_error (pending y) i) as [k|] eqn:Hk; [|now apply Hsame].
    assert (Hres : k = resume).
    { pose proof (inv_pending I) as F. rewrite Forall_forall in F.
      apply F. eapply nth_error_In. exact Hk. }
    subst k. destruct r as [resp|err].
    + rewrite resume_fulfilled. simpl. split; [reflexivity|]. split.
      * intros H0. rewrite H0 in Hk. destruct i; discriminate.
      * right. eexists. split; [|reflexivity]. reflexivity.
    + rewrite resume_rejected. simpl. split; [reflexivity|]. split.
      * intros H0. rewrite H0 in Hk. destruct i; discriminate.
      * destruct (appendUpdater_cases assistant failureContent (messages (ui y)))
          as [H|H]; rewrite H;
          [now left | right; eexists; split; [|reflexivity]; reflexivity].
  - left. unfold render, commit, runEffect.
    destruct (effect y); simpl; auto.
  - left. unfold runEffect. destruct (effect y); simpl; auto.
Qed.

Lemma step_suffix (sid : string) (y : Sys) (e : Event) :
  Inv sid y ->
  exists suffix, messages (ui (step y e)) = messages (ui y) ++ suffix
                 /\ List.length suffix <= 1.
Proof.
  intros I.
  destruct (step_joint e I) as [[_ [_ [H|[m [_ H]]]]]|[text [_ [_ H]]]].
  - exists []. rewrite app_nil_r. auto.
  - exists [m]. auto.
  - destruct (appendUpdater_cases user text (messages (ui y))) as [H'|H'];
      rewrite H' in H.
    + exists []. rewrite app_nil_r. auto.
    + eexists. split; [exact H | simpl; lia].
Qed.

Lemma run_suffix (sid : string) (evs : list Event) (y : Sys) :
  Inv sid y ->
  exists suffix, messages (ui (run evs y)) = messages (ui y) ++ suffix
                 /\ List.length suffix <= List.length evs.
Proof.
  revert y. induction evs as [|e evs IH]; simpl; intros y I.
  - exists []. rewrite app_nil_r. auto.
  - destruct (step_suffix e I) as [s1 [H1 L1]].
    destruct (IH (step y e) (Inv_step e I)) as [s2 [H2 L2]].
    exists (s1 ++ s2). rewrite H2, H1, <- app_assoc, length_app.
    split; [reflexivity | lia].
Qed.

(** ** The ledger holds in every reachable state *)

Lemma userContents_snoc (l : list Message) (m : Message) :
  userContents (l ++ [m])
  = userContents l ++ (if isUserTurn m then [content m] else []).
Proof.
  unfold userContents. rewrite filter_app, map_app. simpl.
  now destruct (isUserTurn m).
Qed.

Lemma lastMessage_In (l : list Message) (m : Message) :
  lastMessage l = Some m -> In m l.
Proof.
  unfold lastMessage. destruct l as [|a t]; [discriminate|].
  apply nth_error_In.
Qed.

Lemma userContents_In (l : list Message) (m : Message) :
  In m l -> role m = user -> In (content m) (userContents l).
Proof.
  intros Hin Hr. unfold userContents. apply in_map. apply filter_In.
  split; [exact Hin|]. unfold isUserTurn. now rewrite Hr.
Qed.

Lemma Ledger_boot (now : N) : Ledger (boot now).
Proof.
  constructor; simpl; auto.
  - now exists [].
  - tauto.
Qed.

Lemma Ledger_step (sid : string) (y : Sys) (e : Event) :
  Inv sid y -> Ledger y -> Ledger (step y e).
Proof.
  intros I [[rest Hf] Hq Hs Hc Hz].
  destruct (step_joint e I) as [[Hr [Hp Hm]]|[text [Hr [Hp Hm]]]].
  - destruct Hm as [Hm|[m [Hu Hm]]].
    + constructor; rewrite Hm; try rewrite Hr; auto.
      * now exists rest.
      * intros H1. destruct (Hz H1) as [H2 H3]. auto.
    + constructor; rewrite Hm; try rewrite Hr.
      * exists (rest ++ [m]). now rewrite Hf.
      * intros t. rewrite userContents_snoc, Hu, app_nil_r. apply Hq.
      * apply Forall_app. split; [exact Hs|].
        constructor; [congruence | constructor].
      * now rewrite userContents_snoc, Hu, app_nil_r.
      * rewrite Hf, length_app. simpl. lia.
  - destruct (appendUpdater_cases user text (messages (ui y))) as [H|H].
    + assert (Hin : In text (userContents (messages (ui y)))).
      { apply appendUpdater_fixed_iff, sameAsLast_iff in H as [m [Hl [Hro Hco]]].
        rewrite <- Hco. apply userContents_In; [now apply lastMessage_In | exact Hro]. }
      rewrite H in Hm.
      constructor; rewrite Hm; try rewrite Hr.
      * now exists rest.
      * intros t. rewrite map_app, in_app_iff. simpl. rewrite <- Hq.
        split; [auto|]. intros [Ht|[<-|[]]]; auto.
      * exact Hs.
      * rewrite length_app. simpl. lia.
      * intros H1. exfalso.
        apply appendUpdater_fixed_iff, sameAsLast_iff in H as [m [Hl [Hro _]]].
        rewrite Hf in H1, Hl. destruct rest; [|discriminate].
        unfold lastMessage in Hl. simpl in Hl. inversion Hl. subst m. discriminate.
    + rewrite H in Hm.
      constructor; rewrite Hm; try rewrite Hr.
      * exists (rest ++ [mkMessage user text None]). now rewrite Hf.
      * intros t. rewrite userContents_snoc, map_app, !in_app_iff. simpl.
        rewrite <- Hq. tauto.
      * apply Forall_app. split; [exact Hs|].
        constructor; [reflexivity | constructor].
      * rewrite userContents_snoc, !length_app. simpl. lia.
      * rewrite Hf, length_app. simpl. lia.
Qed.

Lemma Ledger_run (sid : string) (evs : list Event) (y : Sys) :
  Inv sid y -> Ledger y -> Ledger (run evs y).
Proof.
  revert y. induction evs as [|e evs IH]; simpl; intros y I L; [exact L|].
  apply IH; [now apply Inv_step|].
  apply (Ledger_step e I L).
Qed.

Lemma reachable_Ledger (y : Sys) : reachable y -> Ledger y.
Proof.
  intros [now [evs ->]].
  apply (Ledger_run evs (Inv_boot now) (Ledger_boot now)).
Qed.

(** ** The transcript over a whole run *)

(** X1: the transcript is append-only.  Along every run of the page no
    turn is removed or changed: what the transcript was is a prefix of
    what it is later, every event adds at most one turn, and the greeting
    stays the first turn. *)
Theorem transcript_append_only (now : N) (evs more : list Event) :
  exists suffix rest,
    messages (ui (run (evs ++ more) (boot now)))
    = messages (ui (run evs (boot now))) ++ suffix
    /\ List.length suffix <= List.length more
    /\ messages (ui (run evs (boot now)))
       = mkMessage assistant greeting None :: rest.
Proof.
  pose proof (Inv_boot now) as I0.
  pose proof (Inv_run evs I0) as I.
  destruct (run_suffix more I) as [suffix [Hs Hl]].
  destruct (run_suffix evs I0) as [rest [Hr _]].
  exists suffix, rest. rewrite run_app. auto.
Qed.

(** X2: the user turns and the calls carry the same texts.  In every
    run, a text is the content of a user turn of the transcript exactly
    when it is the message of a call made to the text collaborator, and
    there are never more user turns than calls; a call whose text equals
    the user turn the transcript ends with adds no second user turn. *)
Theorem user_turns_match_requests (now : N) (evs : list Event) (text : string) :
  (In text (userContents (messages (ui (run evs (boot now)))))
   <-> In text (map fst (requests (run evs (boot now)))))
  /\ List.length (userContents (messages (ui (run evs (boot now)))))
     <= List.length (requests (run evs (boot now)))
  /\ (forall y h m,
        loadingRef (ui y) = false -> trim text <> "" ->
        messages (ui y) = h ++ [m] -> role m = user -> content m = trim text ->
        messages (ui (step y (Transcription user text))) = messages (ui y)
        /\ requests (step y (Transcription user text))
           = requests y ++ [ (trim text, sessionId (ui y)) ]).
Proof.
  assert (L : Ledger (run evs (boot now)))
    by (apply reachable_Ledger; now exists now, evs).
  split; [apply (led_requests L)|]. split; [apply (led_count L)|].
  intros y h m Hfree Hnb Hl Hr Hc.
  rewrite step_send by reflexivity. simpl sendText.
  rewrite launch_accepted by assumption. cbn [ui requests].
  split; [|reflexivity]. simpl. rewrite Hl.
  now apply appendUpdater_dropped.
Qed.

(** X4: a user turn never carries sources.  In every run, each user turn
    of the transcript has no [sources], so the page shows no source chips
    under it. *)
Theorem user_turns_carry_no_sources
  (now : N) (evs : list Event) (m : Message)
  (Hin : In m (messages (ui (run evs (boot now)))))
  (Huser : role m = user) :
  sources m = None /\ showSources m = false /\ renderSources m = [].
Proof.
  assert (L : Ledger (run evs (boot now)))
    by (apply reachable_Ledger; now exists now, evs).
  pose proof (led_sources L) as F. rewrite Forall_forall in F.
  assert (Hs : sources m = None).
  { apply F; [exact Hin|]. unfold isUserTurn. now rewrite Huser. }
  unfold renderSources, showSources. rewrite Hs. auto.
Qed.

Lemma user_turns_carry_no_sources_witness :
  sources (mkMessage user "hi" None) = None.
Proof.
  refine (proj1 (@user_turns_carry_no_sources 0
            [Transcription user "  hi "; Settle 0 (Fulfilled (mkResponse "Hello"
               (Some [ mkSource "Policy 4" None ])))]
            (mkMessage user "hi" None) _ _)).
  - simpl. right. left. reflexivity.
  - reflexivity.
Defined.

(** X5: a source is rendered as a link exactly when it has a non-empty
    url, the link then points to that url; a source whose url is missing
    or empty is rendered as inert text; the chip always shows the label,
    and a turn that shows its sources shows one chip per source, in
    order. *)
Theorem source_is_link_iff_url (source : ChatSource) (m : Message) :
  match renderSource source with
  | LinkChip href text =>
      url source = Some href /\ href <> "" /\ text = label source
  | TextChip text =>
      (url source = None \/ url source = Some "") /\ text = label source
  end
  /\ (showSources m = true <-> exists s l, sources m = Some (s :: l))
  /\ (forall l, sources m = Some l -> renderSources m = map renderSource l)
  /\ (sources m = None -> renderSources m = []).
Proof.
  split.
  - unfold renderSource. destruct (url source) as [[|c u]|]; simpl; auto.
    repeat split. discriminate.
  - unfold renderSources, showSources. split; [|split].
    + destruct (sources m) as [[|s l]|]; split; try discriminate; eauto.
      * intros [s [l H]]. discriminate.
      * intros [s [l H]]. discriminate.
    + intros l ->. now destruct l.
    + now intros ->.
Qed.

(** ** What is sent to the text collaborator *)

(** A step either makes no call or makes one call, with a trimmed
    non-blank message and the session id. *)
Lemma step_requests (y : Sys) (e : Event) :
  requests (step y e) = requests y
  \/ exists text, trim text <> ""
       /\ requests (step y e) = requests y ++ [ (trim text, sessionId (ui y)) ].
Proof.
  assert (Hsend : forall text,
            requests (launch (sendMessage text (ui y)) y) = requests y
            \/ exists t, trim t <> ""
                 /\ requests (launch (sendMessage text (ui y)) y)
                    = requests y ++ [ (trim t, sessionId (ui y)) ]).
  { intros text.
    destruct (sendMessage_cases text (ui y)) as [[E _]|[E [Hnb _]]]; rewrite E.
    - now left.
    - right. now exists text. }
  destruct e as [v| |key shiftKey|r text|i r| |]; simpl.
  - now left.
  - apply Hsend.
  - unfold handleKeyPress. destruct (String.eqb key "Enter" && negb shiftKey).
    + apply Hsend.
    + now left.
  - unfold onTranscription. destruct r; simpl; [apply Hsend | now left].
  - unfold settle. destruct (nth_error (pending y) i) as [k|]; [|now left].
    destruct (k r (ui y)). now left.
  - unfold render, commit, runEffect. destruct (effect y); now left.
  - unfold runEffect. destruct (effect y); now left.
Qed.

Lemma run_requests_trimmed (sid : string) (evs : list Event) (y : Sys) :
  Inv sid y ->
  Forall (fun rq => exists text, fst rq = trim text /\ trim text <> "") (requests y) ->
  Forall (fun rq => exists text, fst rq = trim text /\ trim text <> "")
         (requests (run evs y)).
Proof.
  revert y. induction evs as [|e evs IH]; simpl; intros y I F; [exact F|].
  apply IH; [now apply Inv_step|].
  destruct (step_requests y e) as [->|[text [Hnb ->]]]; [exact F|].
  apply Forall_app. split; [exact F|].
  constructor; [|constructor]. now exists text.
Qed.

(** X6: the text collaborator never receives a blank or padded message.
    In every run, each message handed to it is non-empty and neither
    starts nor ends with white space. *)
Theorem requests_are_trimmed_nonblank
  (now : N) (evs : list Event) (message session : string)
  (Hin : In (message, session) (requests (run evs (boot now)))) :
  message <> ""
  /\ notWhite (firstChar message)
  /\ notWhite (lastChar message).
Proof.
  pose proof (@run_requests_trimmed _ evs (boot now) (Inv_boot now)) as F.
  specialize (F (Forall_nil _)). rewrite Forall_forall in F.
  destruct (F _ Hin) as [text [Hm Hnb]]. simpl in Hm. subst message.
  split; [exact Hnb|]. split; [apply trim_first | apply trim_last].
Qed.

Lemma requests_are_trimmed_nonblank_witness : "hi" <> "".
Proof.
  refine (proj1 (@requests_are_trimmed_nonblank 0
            [Change "  hi  "; ClickSend] "hi" "session-0" _)).
  simpl. left. reflexivity.
Defined.

(** X7: the session id is fixed at mount.  In every run the session
    cell keeps the value built from [Date.now()] at mount, and every
    call to the text collaborator carries that value. *)
Theorem session_id_never_changes (now : N) (evs : list Event) :
  sessionId (ui (run evs (boot now)))
  = ("session-" ++ NilEmpty.string_of_uint (N.to_uint now))%string
  /\ Forall (fun rq => snd rq = sessionId (ui (run evs (boot now))))
            (requests (run evs (boot now))).
Proof.
  pose proof (Inv_run evs (Inv_boot now)) as I.
  split; [exact (inv_session I)|].
  rewrite (inv_session I). exact (inv_requests I).
Qed.

(** ** White space around the text *)

Lemma trimStart_white (s : string) : allWhiteSpace s = true -> trimStart s = "".
Proof.
  induction s as [|c r IH]; simpl; [reflexivity|].
  intros H. apply andb_true_iff in H as [Hc Hr]. rewrite Hc. auto.
Qed.

Lemma trimEnd_white (s : string) : allWhiteSpace s = true -> trimEnd s = "".
Proof.
  induction s as [|c r IH]; simpl; [reflexivity|].
  intros H. apply andb_true_iff in H as [Hc Hr]. rewrite (IH Hr), Hc. reflexivity.
Qed.

Lemma trimStart_app_white (pre x : string) :
  allWhiteSpace pre = true -> trimStart (pre ++ x) = trimStart x.
Proof.
  induction pre as [|c r IH]; simpl; [reflexivity|].
  intros H. apply andb_true_iff in H as [Hc Hr]. rewrite Hc. auto.
Qed.

Lemma trimEnd_app_white (x post : string) :
  allWhiteSpace post = true -> trimEnd (x ++ post) = trimEnd x.
Proof.
  intros H. induction x as [|c r IH]; simpl.
  - now apply trimEnd_white.
  - now rewrite IH.
Qed.

Lemma trimStart_app (t post : string) :
  trimStart (t ++ post)
  = if allWhiteSpace t then trimStart post else (trimStart t ++ post)%string.
Proof.
  induction t as [|c r IH]; simpl; [reflexivity|].
  destruct (isWhiteSpace c); simpl; [exact IH | reflexivity].
Qed.

Lemma trim_padded (pre text post : string) :
  allWhiteSpace pre = true -> allWhiteSpace post = true ->
  trim (pre ++ text ++ post) = trim text.
Proof.
  intros Hpre Hpost. unfold trim.
  rewrite trimStart_app_white by assumption. rewrite trimStart_app.
  destruct (allWhiteSpace text) eqn:Ht.
  - now rewrite (trimStart_white post Hpost), (trimStart_white text Ht).
  - now apply trimEnd_app_white.
Qed.

Lemma trim_idempotent (text : string) : trim (trim text) = trim text.
Proof.
  destruct (trim_split text) as [pre [post [Heq [Hpre Hpost]]]].
  rewrite Heq at 2. symmetry. now apply trim_padded.
Qed.

(** X8: white space around the text never matters to a dispatch.  A text
    padded with white space on either side is handled by [sendMessage]
    exactly as the text itself, and so is its trim: same rejection, same
    user turn, same message to the collaborator. *)
Theorem padding_is_ignored
  (pre text post : string) (s : State)
  (Hpre : allWhiteSpace pre = true) (Hpost : allWhiteSpace post = true) :
  sendMessage (pre ++ text ++ post) s = sendMessage text s
  /\ sendMessage (trim text) s = sendMessage text s.
Proof.
  unfold sendMessage. rewrite trim_padded by assumption.
  rewrite trim_idempotent. split; reflexivity.
Qed.

Lemma padding_is_ignored_witness :
  sendMessage "  hi  " (init 0) = sendMessage "hi" (init 0).
Proof.
  refine (proj1 (@padding_is_ignored "  " "hi" "  " (init 0) _ _)).
  - reflexivity.
  - reflexivity.
Defined.

(** ** Suggestions and indicators *)

(** X10: the suggested questions are shown exactly while the transcript
    is the greeting alone, and once a turn has been added they never
    come back. *)
Theorem suggestions_until_first_turn (now : N) (evs more : list Event) :
  (showSuggestions (ui (run evs (boot now))) = true
   <-> messages (ui (run evs (boot now))) = [ mkMessage assistant greeting None ])
  /\ (showSuggestions (ui (run evs (boot now))) = false ->
      showSuggestions (ui (run (evs ++ more) (boot now))) = false).
Proof.
  pose proof (Inv_boot now) as I0.
  destruct (run_suffix evs I0) as [rest [Hr _]].
  destruct (run_suffix more (Inv_run evs I0)) as [suffix [Hs _]].
  rewrite run_app. unfold showSuggestions. rewrite Hs, Hr. simpl.
  split.
  - destruct rest; simpl; split; try reflexivity; discriminate.
  - destruct rest; simpl; [discriminate|]. reflexivity.
Qed.

(** X11: the four voice indicators agree.  For every status string the
    label is Desactive, the dot grey, the button labelled and wired to
    start the microphone exactly when the status is neither ready nor
    connecting; the label is Ecoute and the dot green exactly when the
    status is ready. *)
Theorem voice_indicators_agree (voiceStatus : string) :
  (voiceActive voiceStatus = true
   <-> voiceStatus = "ready" \/ voiceStatus = "connecting")
  /\ (voiceLabel voiceStatus = "Desactive" <-> voiceActive voiceStatus = false)
  /\ (voiceDot voiceStatus = "bg-gray-300" <-> voiceActive voiceStatus = false)
  /\ (micClick voiceStatus = StartVoice <-> voiceActive voiceStatus = false)
  /\ (micAriaLabel voiceStatus = "Demarrer le micro"
      <-> voiceActive voiceStatus = false)
  /\ (voiceLabel voiceStatus = "Ecoute" <-> voiceStatus = "ready")
  /\ (voiceDot voiceStatus = "bg-emerald-500" <-> voiceStatus = "ready").
Proof.
  unfold voiceActive, voiceLabel, voiceDot, micClick, micAriaLabel, voiceActive.
  destruct (String.eqb_spec voiceStatus "ready") as [Hr|Hr];
    destruct (String.eqb_spec voiceStatus "connecting") as [Hc|Hc];
    simpl; repeat split; intros H;
      try discriminate; try congruence; auto;
      try (destruct H; congruence).
Qed.


(** ** Typed text *)

(** Typing a text and sending it with the gate free. *)
Lemma typed_send_accepted (y : Sys) (text : string) :
  loadingRef (ui y) = false -> trim text <> "" ->
  run [Change text; ClickSend] y
  = mkSys (dispatched text (setInput text (ui y)))
          (pending y ++ [resume])
          (requests y ++ [ (trim text, sessionId (ui y)) ])
          (outcomes y) (rendered y) (effect y).
Proof.
  intros Hfree Hnb. unfold run. cbn [fold_left].
  rewrite step_send by reflexivity.
  rewrite launch_accepted; [reflexivity | exact Hnb | exact Hfree].
Qed.

(** While the transcript is the greeting alone nothing has been
    dispatched. *)
Lemma suggestions_shown_quiet (y : Sys) :
  reachable y -> showSuggestions (ui y) = true ->
  messages (ui y) = [ mkMessage assistant greeting None ]
  /\ requests y = [] /\ pending y = [].
Proof.
  intros Hr Hs. pose proof (reachable_Ledger Hr) as L.
  unfold showSuggestions in Hs. apply Nat.eqb_eq in Hs.
  destruct (led_first L) as [rest Hf].
  split; [|exact (led_quiet L Hs)].
  rewrite Hf in Hs |- *. destruct rest; [reflexivity | discriminate].
Qed.

(** X12: clicking a suggested question and sending it, with the gate
    free, dispatches that very question: it is its own trim, so the
    message to the collaborator is the question, character for character,
    the input box is cleared, one more dispatch is in flight, and the
    user turn that is added, unless the transcript already ends with a
    user turn of that content, has the question as its content.  Where
    the suggestions are on the page, the transcript being the greeting
    alone, the user turn is added after the greeting and the dispatch is
    the first call and the only one in flight. *)
Theorem suggested_question_sent_verbatim
  (y : Sys) (question : string)
  (Hfree : loadingRef (ui y) = false)
  (Hq : In question suggestedQuestions) :
  requests (run [Change question; ClickSend] y)
  = requests y ++ [ (question, sessionId (ui y)) ]
  /\ input (ui (run [Change question; ClickSend] y)) = ""
  /\ inFlight (run [Change question; ClickSend] y) = inFlight y + 1
  /\ (sameAsLast (messages (ui y)) user question = false ->
      messages (ui (run [Change question; ClickSend] y))
      = messages (ui y) ++ [ mkMessage user question None ])
  /\ (reachable y -> showSuggestions (ui y) = true ->
      messages (ui (run [Change question; ClickSend] y))
      = [ mkMessage assistant greeting None; mkMessage user question None ]
      /\ requests (run [Change question; ClickSend] y)
         = [ (question, sessionId (ui y)) ]
      /\ inFlight (run [Change question; ClickSend] y) = 1).
Proof.
  assert (Ht : trim question = question /\ question <> "").
  { simpl in Hq. destruct Hq as [<-|[<-|[<-|[<-|[]]]]];
      (split; [vm_compute; reflexivity | discriminate]). }
  destruct Ht as [Ht Hne].
  assert (Hm : sameAsLast (messages (ui y)) user question = false ->
               messages (dispatched question (setInput question (ui y)))
               = messages (ui y) ++ [ mkMessage user question None ]).
  { intros Hl. simpl. unfold appendUpdater. now rewrite Ht, Hl. }
  rewrite typed_send_accepted by (rewrite ?Ht; assumption).
  unfold inFlight. cbn [requests ui pending]. rewrite Ht, length_app.
  split; [reflexivity|]. split; [reflexivity|]. split; [reflexivity|].
  split; [exact Hm|].
  intros Hr Hs. destruct (suggestions_shown_quiet Hr Hs) as [H1 [H2 H3]].
  rewrite Hm by (now rewrite H1). rewrite H1, H2, H3. auto.
Qed.

Lemma suggested_question_sent_verbatim_witness :
  requests (run [Change "Quels documents dois-je fournir ?"; ClickSend] (boot 0))
  = requests (boot 0)
      ++ [ ("Quels documents dois-je fournir ?", sessionId (ui (boot 0))) ].
Proof.
  refine (proj1 (@suggested_question_sent_verbatim (boot 0)
                   "Quels documents dois-je fournir ?" _ _)).
  - reflexivity.
  - simpl. right. right. left. reflexivity.
Defined.

(** X13: an accepted voice dispatch discards the draft.  Whatever has
    been typed in the input box and not sent, a voice transcription of
    the user that is accepted clears the box, and only the transcription
    goes to the collaborator; a voice transcription that is dropped,
    being blank or arriving while the gate is taken, leaves the draft in
    the box. *)
Theorem voice_dispatch_discards_draft
  (y : Sys) (draft text : string)
  (Hfree : loadingRef (ui y) = false) (Hnb : trim text <> "") :
  ui (run [Change draft; Transcription user text] y)
  = ui (step y (Transcription user text))
  /\ input (ui (run [Change draft; Transcription user text] y)) = ""
  /\ requests (run [Change draft; Transcription user text] y)
     = requests y ++ [ (trim text, sessionId (ui y)) ]
  /\ (forall z dropped,
        trim dropped = "" \/ loadingRef (ui z) = true ->
        ui (run [Change draft; Transcription user dropped] z)
        = setInput draft (ui z)).
Proof.
  assert (H1 : step y (Transcription user text)
               = mkSys (dispatched text (ui y)) (pending y ++ [resume])
                   (requests y ++ [ (trim text, sessionId (ui y)) ]) (outcomes y)
                   (rendered y) (effect y)).
  { rewrite step_send by reflexivity. now apply launch_accepted. }
  assert (H2 : run [Change draft; Transcription user text] y
               = mkSys (dispatched text (ui y)) (pending y ++ [resume])
                   (requests y ++ [ (trim text, sessionId (ui y)) ]) (outcomes y)
                   (rendered y) (effect y)).
  { unfold run. cbn [fold_left]. rewrite step_send by reflexivity.
    rewrite launch_accepted; [reflexivity | exact Hnb | exact Hfree]. }
  rewrite H1, H2. repeat split.
  intros z dropped Hd. unfold run. cbn [fold_left].
  rewrite step_send by reflexivity.
  rewrite launch_rejected; [reflexivity | exact Hd].
Qed.

Lemma voice_dispatch_discards_draft_witness :
  input (ui (run [Change "a draft"; Transcription user "hello"] (boot 0))) = "".
Proof.
  refine (proj1 (proj2
    (@voice_dispatch_discards_draft (boot 0) "a draft" "hello" _ _))).
  - reflexivity.
  - simpl. discriminate.
Defined.

(** ** Repeated and equal turns *)

Lemma appendUpdater_idempotent (r : Role) (c : string) (l : list Message) :
  appendUpdater r c (appendUpdater r c l) = appendUpdater r c l.
Proof.
  apply appendUpdater_fixed_iff, sameAsLast_iff, appendUpdater_last.
Qed.

Lemma appendMessage_twice (r : Role) (c : string) (s : State) :
  appendMessage r c (appendMessage r c s) = appendMessage r c s.
Proof.
  unfold appendMessage, setMessages. simpl.
  now rewrite appendUpdater_idempotent.
Qed.

Lemma voice_repeat (c : string) (n : nat) (y : Sys) :
  ui (run (repeat (Transcription assistant c) n)
          (step y (Transcription assistant c)))
  = ui (step y (Transcription assistant c)).
Proof.
  revert y. induction n as [|n IH]; intros y; [reflexivity|].
  cbn [repeat run fold_left]. fold (run (repeat (Transcription assistant c) n)).
  rewrite IH. simpl. apply appendMessage_twice.
Qed.

(** X14: the deduplicating append is idempotent.  Appending the same
    role and content twice is the same as appending it once, and however
    many times in a row the voice collaborator delivers the same
    assistant transcription, the cells are as after the first delivery. *)
Theorem appendMessage_idempotent
  (r : Role) (c : string) (s : State) (y : Sys) (n : nat) :
  appendMessage r c (appendMessage r c s) = appendMessage r c s
  /\ ui (run (repeat (Transcription assistant c) (S n)) y)
     = ui (step y (Transcription assistant c)).
Proof.
  split; [apply appendMessage_twice|].
  exact (voice_repeat c n y).
Qed.

(** X15: deduplication depends on the order of arrival.  The reply of
    the text collaborator is always appended, even when the transcript
    already ends with an assistant turn of the same content, which then
    appears twice in a row; a voice transcription of the assistant that
    arrives after a reply with the same content is dropped, although the
    reply carries sources and the transcription none. *)
Theorem reply_always_appended_voice_deduplicated (resp : ChatResponse) (s : State) :
  messages (fst (resume (Fulfilled resp) (appendMessage assistant (response resp) s)))
  = appendUpdater assistant (response resp) (messages s)
      ++ [ mkMessage assistant (response resp) (response_sources resp) ]
  /\ (exists h m,
        messages (fst (resume (Fulfilled resp)
                         (appendMessage assistant (response resp) s)))
        = h ++ [ m; mkMessage assistant (response resp) (response_sources resp) ]
        /\ role m = assistant /\ content m = response resp)
  /\ appendMessage assistant (response resp) (fst (resume (Fulfilled resp) s))
     = fst (resume (Fulfilled resp) s).
Proof.
  split; [reflexivity|]. split.
  - rewrite resume_fulfilled. cbn [fst released messages appendMessage setMessages].
    destruct (appendUpdater_last (messages s) assistant (response resp))
      as [m [Hl [Hr Hc]]].
    destruct (appendUpdater assistant (response resp) (messages s)) as [|a l _]
      using rev_ind; [discriminate|].
    rewrite lastMessage_snoc in Hl. inversion Hl. subst a.
    exists l, m. rewrite <- app_assoc. auto.
  - rewrite resume_fulfilled. unfold appendMessage, setMessages, released.
    cbn [fst messages input loading sessionId loadingRef].
    f_equal. apply appendUpdater_fixed_iff. rewrite sameAsLast_snoc. simpl.
    now rewrite String.eqb_refl.
Qed.
